(** * Plaesthetic: the matching-and-playback core

    A shallow embedding of [src/modules/tag_matching.py],
    [src/modules/playback.py], [src/modules/vision_analysis.py],
    [src/modules/writer.py] and the routes of [src/app.py] that drive them,
    followed by the properties of the specification that concern them and by
    further properties read off the code.

    Modelling conventions.
    - Python [float]s are idealised as exact numbers: rationals [Q] in the
      playback engine (only field operations, [min] and [max] occur there, so
      the model runs), reals [R] in the similarity ranker (which needs a
      square root).  Rounding is outside the model; where the code would
      leave the numbers, by dividing by zero, the model has an outcome of
      its own.
    - A Python exception is a value of [exn]; a call either returns or
      raises.  A call on the player can moreover block for ever on the
      player's non-reentrant [threading.Lock].
    - [time.time()] is an argument [now] of each operation that reads the
      clock; the file system, the audio decoder, the embedding and chat
      services, and the library functions [json.loads], [str.strip] and
      [Path.as_posix] are explicit parameters. *)

From Stdlib Require Import ZArith QArith Qminmax Reals Lra Lia.
From Stdlib Require Import List Ascii String Bool Permutation Sorted.
Import ListNotations.

(** ** Python exceptions and song records *)

Inductive exn : Type :=
| FileNotFoundError
| ValueError
| RuntimeError
| TypeError
| IndexError
| ZeroDivisionError.

(** A validated entry of the song library (a dict with the four required
    keys); [features] is the nested dict, read with [.get(key, '')]. *)
Record Song : Type := mkSong {
  title : string;
  type : string;
  link : string;
  features : list (string * string)
}.

Fixpoint dict_get (d : list (string * string)) (key default : string) : string :=
  match d with
  | [] => default
  | (k, v) :: rest => if String.eqb k key then v else dict_get rest key default
  end.

(** ** tag_matching.py *)

Module TagMatching.

Local Open Scope R_scope.

Inductive result (A : Type) : Type :=
| Ok (a : A)
| Err (e : exn).
Arguments Ok {A} a.
Arguments Err {A} e.

Definition bind {A B : Type} (m : result A) (k : A -> result B) : result B :=
  match m with
  | Ok a => k a
  | Err e => Err e
  end.

Notation "x <- m ;; k" := (bind m (fun x => k))
  (at level 61, m at next level, right associativity).

(** [np.dot] on two one-dimensional arrays: the sum of the pairwise
    products; arrays of different lengths are "not aligned" ([ValueError]). *)
Fixpoint np_dot (v1 v2 : list R) : result R :=
  match v1, v2 with
  | [], [] => Ok 0
  | x :: xs, y :: ys => rest <- np_dot xs ys ;; Ok (x * y + rest)
  | _, _ => Err ValueError
  end.

Fixpoint sum_squares (v : list R) : R :=
  match v with
  | [] => 0
  | x :: xs => x * x + sum_squares xs
  end.

(** [np.linalg.norm]: the Euclidean norm. *)
Definition np_linalg_norm (v : list R) : R := sqrt (sum_squares v).

Definition is_zero (x : R) : bool := if Req_dec_T x 0 then true else false.

(** [x / y] on numpy floats.  To a zero divisor numpy answers nan or an
    infinity, with a warning; the reals have no such value, so the quotient
    is partial. *)
Definition np_divide (x y : R) : option R :=
  if is_zero y then None else Some (x / y).

(** [cosine_similarity].  A division by zero, after which the code would
    return nan or an infinity, is the outcome [Err ZeroDivisionError]. *)
Definition cosine_similarity (vec1 vec2 : list R) : result R :=
  dot_product <- np_dot vec1 vec2 ;;
  let norm1 := np_linalg_norm vec1 in
  let norm2 := np_linalg_norm vec2 in
  if is_zero norm1 || is_zero norm2 then Ok 0
  else match np_divide dot_product (norm1 * norm2) with
       | Some quotient => Ok quotient
       | None => Err ZeroDivisionError
       end.

(** An entry of the library file as [json.load] yields it: a JSON object
    with the values the library manager writes (strings, and an object of
    strings for the features), of which any of the required keys may be
    absent. *)
Record RawSong : Type := mkRawSong {
  raw_title : option string;
  raw_type : option string;
  raw_link : option string;
  raw_features : option (list (string * string))
}.

(** The library files the model covers: text that is not JSON, and an
    array of objects, which is what the library manager writes.  Other
    files (bytes that are not UTF-8, a JSON value that is not an array of
    objects) have no counterpart here. *)
Inductive LibraryFile : Type :=
| NotJson
| JsonArray (entries : list RawSong).

(** What the matcher reaches outside the process: the file system and the
    embedding service ([None]: the request or the decoding of its answer
    failed). *)
Record World : Type := mkWorld {
  files : string -> option LibraryFile;
  embedding_api : string -> option (list R)
}.

(** [get_embedding]: both handlers read [raise RuntimeError(...) from e [4][5]],
    and subscripting the caught exception is itself a [TypeError]. *)
Definition get_embedding (w : World) (text api_key : string) : result (list R) :=
  if String.eqb api_key "" then Err ValueError
  else match embedding_api w text with
       | Some embedding => Ok embedding
       | None => Err TypeError
       end.

Definition validate (song : RawSong) : option Song :=
  match raw_title song, raw_type song, raw_link song, raw_features song with
  | Some t, Some ty, Some l, Some f => Some (mkSong t ty l f)
  | _, _, _, _ => None
  end.

(** The validation loop of [load_music_library]; whatever is raised inside
    its [try] other than a JSON decoding error leaves as [RuntimeError]. *)
Fixpoint validate_all (library : list RawSong) : result (list Song) :=
  match library with
  | [] => Ok []
  | song :: rest =>
      match validate song with
      | Some s => songs <- validate_all rest ;; Ok (s :: songs)
      | None => Err RuntimeError
      end
  end.

Definition load_music_library (w : World) (library_path : string)
  : result (list Song) :=
  match files w library_path with
  | None => Err FileNotFoundError
  | Some NotJson => Err ValueError
  | Some (JsonArray library) => validate_all library
  end.

Definition Rltb (x y : R) : bool := if Rlt_dec x y then true else false.

(** [list.sort(key=lambda x: x[1], reverse=True)].  Python's sort is stable
    and stays so under [reverse=True]; its result is the one an insertion
    sort gives that puts an element in front of the first element whose key
    is not greater. *)
Fixpoint insert_desc (m : Song * R) (sorted : list (Song * R)) : list (Song * R) :=
  match sorted with
  | [] => [m]
  | m' :: rest =>
      if Rltb (snd m) (snd m') then m' :: insert_desc m rest
      else m :: m' :: rest
  end.

Fixpoint sort_desc (matches : list (Song * R)) : list (Song * R) :=
  match matches with
  | [] => []
  | m :: rest => insert_desc m (sort_desc rest)
  end.

Definition song_features (song : Song) : string :=
  ("韵律:" ++ dict_get (features song) "rhythm" "" ++
   ", 情绪:" ++ dict_get (features song) "mood" "")%string.

(** The body of the [for song in music_library] loop. *)
Fixpoint score_all (w : World) (api_key : string) (query_embedding : list R)
    (music_library : list Song) : result (list (Song * R)) :=
  match music_library with
  | [] => Ok []
  | song :: rest =>
      song_embedding <- get_embedding w (song_features song) api_key ;;
      similarity <- cosine_similarity query_embedding song_embedding ;;
      matches <- score_all w api_key query_embedding rest ;;
      Ok ((song, similarity) :: matches)
  end.

Definition match_music (w : World) (environment mood lib_path api_key : string)
    (top_n : Z) : result (list (Song * R)) :=
  let query := ("环境:" ++ environment ++ ", 情绪:" ++ mood)%string in
  music_library <- load_music_library w lib_path ;;
  query_embedding <- get_embedding w query api_key ;;
  matches <- score_all w api_key query_embedding music_library ;;
  let matches := sort_desc matches in
  match matches with
  | [] => Err IndexError   (* matches[0] in the "best match" message *)
  | _ :: _ => Ok (firstn (Z.to_nat (Z.max 1 top_n)) matches)
  end.

(** *** What a ranking is measured against *)

Definition descending (matches : list (Song * R)) : Prop :=
  StronglySorted (fun m m' => snd m' <= snd m) matches.

Definition has_score (s : R) (m : Song * R) : bool :=
  if Req_dec_T (snd m) s then true else false.

(** [ranked] holds the entries of [matches], and those of equal score in
    the order they have in [matches]. *)
Definition stable_ranking (matches ranked : list (Song * R)) : Prop :=
  Permutation ranked matches /\
  forall s, filter (has_score s) ranked = filter (has_score s) matches.

End TagMatching.

(** ** playback.py *)

Module Playback.

Local Open Scope Q_scope.

(** Python's [min(a, b)] returns [b] when [b < a] and [a] otherwise;
    [max(a, b)] returns [b] when [b > a] and [a] otherwise. *)
Definition py_min (a b : Q) : Q :=
  match b ?= a with
  | Lt => b
  | _ => a
  end.

Definition py_max (a b : Q) : Q :=
  match b ?= a with
  | Gt => b
  | _ => a
  end.

(** [pygame.mixer.music]: the output device, as far as the player drives it.
    [music_volume] is the argument last handed to [set_volume]. *)
Inductive MusicStatus : Type :=
| MusicStopped
| MusicPlaying
| MusicPaused.

Record Mixer : Type := mkMixer {
  music_status : MusicStatus;
  music_volume : Q
}.

Inductive ThreadStatus : Type :=
| ThreadRunning
| ThreadExited.

(** The fields of a [MusicPlayer] object; [lock] is [true] while some caller
    holds [self.lock]. *)
Record MusicPlayer : Type := mkPlayer {
  current_song : option Song;
  is_playing : bool;
  is_paused : bool;
  progress : Q;
  song_length : Q;
  start_time : Q;
  progress_thread : option ThreadStatus;
  thread_stop_event : bool;
  lock : bool;
  mixer : Mixer
}.

Definition with_current_song (v : option Song) (p : MusicPlayer) : MusicPlayer :=
  mkPlayer v (is_playing p) (is_paused p) (progress p) (song_length p)
    (start_time p) (progress_thread p) (thread_stop_event p) (lock p) (mixer p).

Definition with_is_playing (v : bool) (p : MusicPlayer) : MusicPlayer :=
  mkPlayer (current_song p) v (is_paused p) (progress p) (song_length p)
    (start_time p) (progress_thread p) (thread_stop_event p) (lock p) (mixer p).

Definition with_is_paused (v : bool) (p : MusicPlayer) : MusicPlayer :=
  mkPlayer (current_song p) (is_playing p) v (progress p) (song_length p)
    (start_time p) (progress_thread p) (thread_stop_event p) (lock p) (mixer p).

Definition with_progress (v : Q) (p : MusicPlayer) : MusicPlayer :=
  mkPlayer (current_song p) (is_playing p) (is_paused p) v (song_length p)
    (start_time p) (progress_thread p) (thread_stop_event p) (lock p) (mixer p).

Definition with_song_length (v : Q) (p : MusicPlayer) : MusicPlayer :=
  mkPlayer (current_song p) (is_playing p) (is_paused p) (progress p) v
    (start_time p) (progress_thread p) (thread_stop_event p) (lock p) (mixer p).

Definition with_start_time (v : Q) (p : MusicPlayer) : MusicPlayer :=
  mkPlayer (current_song p) (is_playing p) (is_paused p) (progress p)
    (song_length p) v (progress_thread p) (thread_stop_event p) (lock p)
    (mixer p).

Definition with_progress_thread (v : option ThreadStatus) (p : MusicPlayer)
  : MusicPlayer :=
  mkPlayer (current_song p) (is_playing p) (is_paused p) (progress p)
    (song_length p) (start_time p) v (thread_stop_event p) (lock p) (mixer p).

Definition with_thread_stop_event (v : bool) (p : MusicPlayer) : MusicPlayer :=
  mkPlayer (current_song p) (is_playing p) (is_paused p) (progress p)
    (song_length p) (start_time p) (progress_thread p) v (lock p) (mixer p).

Definition with_lock_field (v : bool) (p : MusicPlayer) : MusicPlayer :=
  mkPlayer (current_song p) (is_playing p) (is_paused p) (progress p)
    (song_length p) (start_time p) (progress_thread p) (thread_stop_event p)
    v (mixer p).

Definition with_music_status (v : MusicStatus) (p : MusicPlayer) : MusicPlayer :=
  mkPlayer (current_song p) (is_playing p) (is_paused p) (progress p)
    (song_length p) (start_time p) (progress_thread p) (thread_stop_event p)
    (lock p) (mkMixer v (music_volume (mixer p))).

Definition with_music_volume (v : Q) (p : MusicPlayer) : MusicPlayer :=
  mkPlayer (current_song p) (is_playing p) (is_paused p) (progress p)
    (song_length p) (start_time p) (progress_thread p) (thread_stop_event p)
    (lock p) (mkMixer (music_status (mixer p)) v).

(** [MusicPlayer.__init__] *)
Definition init : MusicPlayer :=
  mkPlayer None false false 0 0 0 None false false (mkMixer MusicStopped 1).

(** The states of the specification, read off the two flags. *)
Inductive State : Type :=
| Idle
| Playing
| Paused.

Definition state (p : MusicPlayer) : State :=
  if is_paused p then Paused
  else if is_playing p then Playing
  else Idle.

(** A call on the player returns a value, raises, or never returns because
    it waits for a lock that is not going to be released.  Each outcome
    carries the fields as the call leaves them. *)
Inductive outcome (A : Type) : Type :=
| Returns (a : A) (p : MusicPlayer)
| Raises (e : exn) (p : MusicPlayer)
| Blocks (p : MusicPlayer).
Arguments Returns {A} a p.
Arguments Raises {A} e p.
Arguments Blocks {A} p.

Definition final {A : Type} (o : outcome A) : MusicPlayer :=
  match o with
  | Returns _ p => p
  | Raises _ p => p
  | Blocks p => p
  end.

Definition bind {A B : Type} (m : outcome A) (k : A -> MusicPlayer -> outcome B)
  : outcome B :=
  match m with
  | Returns a p => k a p
  | Raises e p => Raises e p
  | Blocks p => Blocks p
  end.

(** [with self.lock: body].  [threading.Lock] is not reentrant: acquiring it
    while it is held waits, also when the holder is the caller itself.  The
    lock is released when the body returns or raises. *)
Definition with_lock {A : Type} (body : MusicPlayer -> outcome A)
    (p : MusicPlayer) : outcome A :=
  if lock p then Blocks p
  else match body (with_lock_field true p) with
       | Returns a p' => Returns a (with_lock_field false p')
       | Raises e p' => Raises e (with_lock_field false p')
       | Blocks p' => Blocks p'
       end.

(** The audio files as the player sees them: whether [pygame] can load a
    path, and the length in milliseconds [pydub] reports for it ([None]:
    decoding raises). *)
Record AudioFiles : Type := mkAudioFiles {
  mixer_can_load : string -> bool;
  audio_segment_length : string -> option Z
}.

(** [len(audio)] of a [pydub] segment counts milliseconds; the clock of
    [time.time()] counts seconds. *)
Definition _calculate_song_length (fs : AudioFiles) (file_path : string)
  : option Q :=
  option_map inject_Z (audio_segment_length fs file_path).

(** [stop]: the [join(timeout=1.0)] on the progress thread waits at most a
    second and changes no field. *)
Definition stop (p : MusicPlayer) : outcome unit :=
  with_lock (fun p =>
    if is_playing p || is_paused p then
      let p := with_music_status MusicStopped p in
      let p := with_thread_stop_event true p in
      let p := with_is_playing false p in
      let p := with_is_paused false p in
      let p := with_progress 0 p in
      Returns tt p
    else Returns tt p) p.

Definition play (fs : AudioFiles) (now : Q) (song_info : Song)
    (p : MusicPlayer) : outcome bool :=
  with_lock (fun p =>
    bind (if is_playing p || is_paused p then stop p else Returns tt p)
      (fun _ p =>
        let p := with_current_song (Some song_info) p in
        let p := with_is_paused false p in
        let p := with_progress 0 p in
        if String.eqb (type song_info) "local" then
          if mixer_can_load fs (link song_info) then
            let p := with_music_status MusicPlaying p in
            let p := with_start_time now p in
            match _calculate_song_length fs (link song_info) with
            | Some len =>
                let p := with_song_length len p in
                let p := with_thread_stop_event false p in
                let p := with_progress_thread (Some ThreadRunning) p in
                let p := with_is_playing true p in
                Returns true p
            | None => Returns false (with_current_song None p)
            end
          else Returns false (with_current_song None p)
        else if String.eqb (type song_info) "online" then Returns false p
        else Returns false p)) p.

Definition pause (now : Q) (p : MusicPlayer) : outcome unit :=
  with_lock (fun p =>
    if is_playing p && negb (is_paused p) then
      let p := with_music_status MusicPaused p in
      let p := with_is_paused true p in
      let elapsed := now - start_time p in
      if Qeq_bool (song_length p) 0 then Raises ZeroDivisionError p
      else
        Returns tt
          (with_progress (py_min 100 ((elapsed / song_length p) * 100)) p)
    else Returns tt p) p.

(** [resume]: the closing log line reads [self.current_song['title']]
    without a guard. *)
Definition resume (now : Q) (p : MusicPlayer) : outcome unit :=
  with_lock (fun p =>
    if is_paused p then
      let p := with_music_status MusicPlaying p in
      let p := with_start_time (now - (progress p / 100 * song_length p)) p in
      let p := with_is_paused false p in
      let p := with_is_playing true p in
      match current_song p with
      | Some _ => Returns tt p
      | None => Raises TypeError p
      end
    else Returns tt p) p.

Definition skip (p : MusicPlayer) : outcome unit := stop p.

Definition set_volume (target_volume : Z) (p : MusicPlayer) : outcome unit :=
  with_lock (fun p =>
    Returns tt (with_music_volume (inject_Z target_volume / 100) p)) p.

Definition set_progress (percentage : Q) (p : MusicPlayer) : outcome unit :=
  with_lock (fun p =>
    if negb (is_playing p) || is_paused p then Returns tt p
    else
      let clamped_percentage := py_max 0 (py_min 100 percentage) in
      Returns tt (with_progress clamped_percentage p)) p.

Definition get_progress (p : MusicPlayer)
  : outcome (bool * Q * option Song) :=
  with_lock (fun p =>
    Returns (is_playing p && negb (is_paused p), progress p, current_song p) p)
    p.

(** [cleanup]: [stop], then [pygame.mixer.quit()]. *)
Definition cleanup (p : MusicPlayer) : outcome unit :=
  bind (stop p) (fun _ p => Returns tt (with_music_status MusicStopped p)).

(** *** The progress thread

    One pass through the body of the [while] loop of [_track_progress],
    entered with the stop event clear, after the [sleep]: [now] is the clock
    the pass reads.  The statements that follow [return self.progress] in
    the source (the stop at 100 percent) are never executed and have no
    counterpart here. *)
Inductive Cycle : Type :=
| Continue (p : MusicPlayer)        (* [continue]: back to the loop test *)
| Return (value : Q) (p : MusicPlayer)  (* [return self.progress] *)
| Crash (e : exn) (p : MusicPlayer)  (* uncaught exception ends the thread *)
| Wait (p : MusicPlayer).            (* the lock is held by someone else *)

Definition track_cycle (now : Q) (p : MusicPlayer) : Cycle :=
  if lock p then Wait p
  else if negb (is_playing p) || is_paused p
          || match current_song p with None => true | Some _ => false end
  then Continue p
  else
    let elapsed := now - start_time p in
    if Qeq_bool (song_length p) 0 then Crash ZeroDivisionError p
    else
      let p := with_progress (py_min 100 ((elapsed / song_length p) * 100)) p in
      Return (progress p) p.

Definition cycle_state (c : Cycle) : MusicPlayer :=
  match c with
  | Continue p => p
  | Return _ p => p
  | Crash _ p => p
  | Wait p => p
  end.

(** How a run of the thread stands after the clock readings it was given. *)
Inductive ThreadEnd : Type :=
| Cancelled                (* the loop test saw the stop event *)
| Returned (value : Q)     (* left through [return self.progress] *)
| Crashed (e : exn)
| Waiting                  (* blocked on the lock *)
| StillLooping.            (* readings used up, thread still in the loop *)

Definition thread_exits (p : MusicPlayer) : MusicPlayer :=
  with_progress_thread (Some ThreadExited) p.

(** [_track_progress], run on its own: one clock reading per second-long
    cycle. *)
Fixpoint _track_progress (clock : list Q) (p : MusicPlayer)
  : ThreadEnd * MusicPlayer :=
  match clock with
  | [] =>
      if thread_stop_event p then (Cancelled, thread_exits p)
      else (StillLooping, p)
  | now :: later =>
      if thread_stop_event p then (Cancelled, thread_exits p)
      else match track_cycle now p with
           | Continue p' => _track_progress later p'
           | Return v p' => (Returned v, thread_exits p')
           | Crash e p' => (Crashed e, thread_exits p')
           | Wait p' => (Waiting, p')
           end
  end.

(** The range the elapsed fraction is documented to stay in. *)
Definition in_range (p : MusicPlayer) : Prop :=
  0 <= progress p /\ progress p <= 100.

(** *** The operations, as one type

    Everything a caller or the progress thread can do to the player, and the
    fields it leaves behind. *)
Inductive Operation : Type :=
| OpPlay (fs : AudioFiles) (song_info : Song)
| OpPause
| OpResume
| OpStop
| OpSkip
| OpSetVolume (target_volume : Z)
| OpSetProgress (percentage : Q)
| OpGetProgress
| OpCleanup
| OpTrackerUpdate.

Definition perform (op : Operation) (now : Q) (p : MusicPlayer) : MusicPlayer :=
  match op with
  | OpPlay fs song_info => final (play fs now song_info p)
  | OpPause => final (pause now p)
  | OpResume => final (resume now p)
  | OpStop => final (stop p)
  | OpSkip => final (skip p)
  | OpSetVolume v => final (set_volume v p)
  | OpSetProgress percentage => final (set_progress percentage p)
  | OpGetProgress => final (get_progress p)
  | OpCleanup => final (cleanup p)
  | OpTrackerUpdate => cycle_state (track_cycle now p)
  end.

(** The sessions that arise from a fresh player. *)
Inductive reachable : MusicPlayer -> Prop :=
| reachable_init : reachable init
| reachable_step (op : Operation) (now : Q) (p : MusicPlayer) :
    reachable p -> reachable (perform op now p).

End Playback.

(** ** app.py: the volume endpoint *)

Module App.

Import Playback.

(** [int(float(volume_input))]: truncation towards zero.  [None] stands for
    an input the conversion rejects, for which the handler takes 50. *)
Definition int_of_float (x : Q) : Z := Z.quot (Qnum x) (Zpos (Qden x)).

Definition set_volume (volume_input : option Q) (player : MusicPlayer)
  : outcome Z :=
  let volume_percent :=
    match volume_input with
    | Some x => int_of_float x
    | None => 50%Z
    end in
  let volume_percent := Z.max 0 (Z.min 100 volume_percent) in
  bind (Playback.set_volume volume_percent player)
    (fun _ p => Returns volume_percent p).

End App.

(** ** Sample data *)

Module Examples.

Import Playback TagMatching.

Definition song_local : Song :=
  mkSong "Study With Miku" "local" "music/study.mp3"
    [("genre", "Lo-Fi"); ("rhythm", "slow"); ("mood", "relaxed")]%string.

Definition song_online : Song :=
  mkSong "Night Drive" "online" "netease:12345"
    [("rhythm", "fast"); ("mood", "excited")]%string.

(** Every path loads and decodes to three minutes of audio. *)
Definition audio : AudioFiles :=
  mkAudioFiles (fun _ => true) (fun _ => Some 180000%Z).

Definition playing_session : MusicPlayer :=
  final (play audio 1000 song_local init).

Definition paused_session : MusicPlayer :=
  final (pause 1045 playing_session).

(** A library file holding the empty array, and an embedding service that
    answers every text. *)
Definition empty_library : World :=
  mkWorld (fun _ => Some (JsonArray [])) (fun _ => Some [1; 0]%R).

(** A library of two songs, and an embedding service that answers every
    text with the zero vector: all scores tie at 0. *)
Definition two_songs : World :=
  mkWorld
    (fun _ => Some (JsonArray
       [mkRawSong (Some "Study With Miku") (Some "local")
          (Some "music/study.mp3")
          (Some [("genre", "Lo-Fi"); ("rhythm", "slow"); ("mood", "relaxed")]);
        mkRawSong (Some "Night Drive") (Some "online")
          (Some "netease:12345")
          (Some [("rhythm", "fast"); ("mood", "excited")])]%string))
    (fun _ => Some [0; 0]%R).

End Examples.

(** ** JSON values and the exceptions of the remaining modules *)

Module Json.

(** What [json.loads] yields: [None], booleans, numbers, strings, lists and
    dicts with string keys (in insertion order). *)
#[warnings="-register-all"] Inductive JsonValue : Type :=
| JNull
| JBool (b : bool)
| JNumber (n : Q)
| JStr (s : string)
| JList (items : list JsonValue)
| JDict (members : list (string * JsonValue)).

Inductive exception : Type :=
| Builtin (e : exn)
| KeyError
| AttributeError.

Inductive Try (A : Type) : Type :=
| Done (a : A)
| Raised (e : exception).
Arguments Done {A} a.
Arguments Raised {A} e.

Definition and_then {A B : Type} (m : Try A) (k : A -> Try B) : Try B :=
  match m with
  | Done a => k a
  | Raised e => Raised e
  end.

Notation "x <~ m ;; k" := (and_then m (fun x => k))
  (at level 61, m at next level, right associativity).

Fixpoint lookup (key : string) (members : list (string * JsonValue))
  : option JsonValue :=
  match members with
  | [] => None
  | (k, v) :: rest => if String.eqb k key then Some v else lookup key rest
  end.

(** [d[key] = v] on a dict: the value of an existing key is replaced where
    it stands, a new key goes to the end. *)
Fixpoint assign (key : string) (v : JsonValue)
    (members : list (string * JsonValue)) : list (string * JsonValue) :=
  match members with
  | [] => [(key, v)]
  | (k, v') :: rest =>
      if String.eqb k key then (k, v) :: rest
      else (k, v') :: assign key v rest
  end.

(** [v[key]] with a string key: a dict answers or raises [KeyError], any
    other value raises [TypeError]. *)
Definition subscript (v : JsonValue) (key : string) : Try JsonValue :=
  match v with
  | JDict members =>
      match lookup key members with
      | Some x => Done x
      | None => Raised KeyError
      end
  | _ => Raised (Builtin TypeError)
  end.

(** [v[key] = x] *)
Definition set_item (v : JsonValue) (key : string) (x : JsonValue)
  : Try JsonValue :=
  match v with
  | JDict members => Done (JDict (assign key x members))
  | _ => Raised (Builtin TypeError)
  end.

(** The number of bytes of the UTF-8 character that starts with [c]. *)
Definition utf8_width (c : ascii) : nat :=
  let n := nat_of_ascii c in
  if Nat.ltb n 192 then 1
  else if Nat.ltb n 224 then 2
  else if Nat.ltb n 240 then 3
  else 4.

(** [v[0]] *)
Definition subscript0 (v : JsonValue) : Try JsonValue :=
  match v with
  | JList (x :: _) => Done x
  | JList [] => Raised (Builtin IndexError)
  | JStr (String c rest) =>
      Done (JStr (substring 0 (utf8_width c) (String c rest)))
  | JStr EmptyString => Raised (Builtin IndexError)
  | JDict _ => Raised KeyError
  | _ => Raised (Builtin TypeError)
  end.

(** [key in v] for a string [key]: a key of the dict, an element of the
    list, a substring of the string; other values are not containers. *)
Definition contains (key : string) (v : JsonValue) : Try bool :=
  match v with
  | JDict members =>
      Done (match lookup key members with Some _ => true | None => false end)
  | JList items =>
      Done (existsb (fun x => match x with
                              | JStr s => String.eqb s key
                              | _ => false
                              end) items)
  | JStr s =>
      Done (match String.index 0 key s with Some _ => true | None => false end)
  | _ => Raised (Builtin TypeError)
  end.

End Json.

(** ** vision_analysis.py *)

Module Vision.

Import Json.

(** The functions of Python's library that [analyze_image] applies to text:
    [json.loads] ([None]: [JSONDecodeError]) and [str.strip]. *)
Record Python : Type := mkPython {
  json_loads : string -> option JsonValue;
  strip : string -> string
}.

(** The answer to the chat-completion request for an image and an API key:
    the request or [raise_for_status] raises, [response.json()] raises, or
    the body decodes. *)
Inductive HttpResponse : Type :=
| RequestFailed
| BodyNotJson
| Body (response_data : JsonValue).

Definition newline : ascii := "010"%char.

(** Whether the character [c] occurs in [s]. *)
Fixpoint occurs (c : ascii) (s : string) : bool :=
  match s with
  | EmptyString => false
  | String c' rest => Ascii.eqb c' c || occurs c rest
  end.

(** The characters of [s] in front of its first newline. *)
Fixpoint first_line (s : string) : string :=
  match s with
  | EmptyString => EmptyString
  | String c rest =>
      if Ascii.eqb c newline then EmptyString else String c (first_line rest)
  end.

(** The longest prefix of [line] that ends with a closing brace. *)
Fixpoint upto_last_brace (line : string) : option string :=
  match line with
  | EmptyString => None
  | String c rest =>
      match upto_last_brace rest with
      | Some m => Some (String c m)
      | None => if Ascii.eqb c "}" then Some (String c EmptyString) else None
      end
  end.

(** [re.search(r'\{.*\}', content)], the matched text: the dot stands for
    any character but a newline and the star is greedy, so the match runs
    from the first opening brace that has a closing brace behind it on its
    line to the last closing brace of that line. *)
Fixpoint re_search_braces (content : string) : option string :=
  match content with
  | EmptyString => None
  | String c rest =>
      if Ascii.eqb c "{" then
        match upto_last_brace (first_line rest) with
        | Some m => Some (String c m)
        | None => re_search_braces rest
        end
      else re_search_braces rest
  end.

Record Features : Type := mkFeatures {
  environment : string;
  mood : string
}.

(** [response_data["choices"][0]["message"]["content"].strip()] *)
Definition message_content (py : Python) (response_data : JsonValue)
  : Try string :=
  choices <~ subscript response_data "choices" ;;
  choice <~ subscript0 choices ;;
  message <~ subscript choice "message" ;;
  content <~ subscript message "content" ;;
  match content with
  | JStr s => Done (strip py s)
  | _ => Raised AttributeError
  end.

(** [json.loads(content)], and on a decoding error the fragment between
    braces. *)
Definition parse_content (py : Python) (content : string) : Try JsonValue :=
  match json_loads py content with
  | Some result => Done result
  | None =>
      match re_search_braces content with
      | Some fragment =>
          match json_loads py fragment with
          | Some result => Done result
          | None => Raised (Builtin ValueError)
          end
      | None => Raised (Builtin ValueError)
      end
  end.

(** The check for the two fields and the construction of the returned
    dict. *)
Definition read_fields (py : Python) (result : JsonValue) : Try Features :=
  has_environment <~ contains "environment" result ;;
  if negb has_environment then Raised (Builtin ValueError)
  else
    has_mood <~ contains "mood" result ;;
    if negb has_mood then Raised (Builtin ValueError)
    else
      env <~ subscript result "environment" ;;
      md <~ subscript result "mood" ;;
      match env with
      | JStr e =>
          match md with
          | JStr m => Done (mkFeatures (strip py e) (strip py m))
          | _ => Raised AttributeError
          end
      | _ => Raised AttributeError
      end.

(** The body of the second [try] block of [analyze_image]; [body] is
    [response.json()], [None] when that raises. *)
Definition parse_response (py : Python) (body : option JsonValue)
  : Try Features :=
  match body with
  | None => Raised (Builtin ValueError)
  | Some response_data =>
      content <~ message_content py response_data ;;
      result <~ parse_content py content ;;
      read_fields py result
  end.

(** The two handlers of the second [try] block: [(KeyError, IndexError)]
    and [Exception], both raising [RuntimeError]. *)
Definition handle (attempt : Try Features) : TagMatching.result Features :=
  match attempt with
  | Done features => TagMatching.Ok features
  | Raised KeyError => TagMatching.Err RuntimeError
  | Raised (Builtin IndexError) => TagMatching.Err RuntimeError
  | Raised _ => TagMatching.Err RuntimeError
  end.

Definition analyze_image (py : Python)
    (chat_api : string -> string -> HttpResponse)
    (image_data api_key : string) : TagMatching.result Features :=
  match chat_api image_data api_key with
  | RequestFailed => TagMatching.Err RuntimeError
  | BodyNotJson => handle (parse_response py None)
  | Body response_data => handle (parse_response py (Some response_data))
  end.

End Vision.

(** ** app.py: the routes that drive the matcher and the player *)

Module AppRoutes.

Import Playback.

Inductive Response : Type :=
| BadRequest                 (* 400: no image in the request *)
| NotFound                   (* 404: "no matching music found" *)
| Recommendation (success : bool) (environment mood : string)
    (recommended_song : Song)
| ReturnedNone.              (* the [except] branch: the view returns None *)

(** [analyse_image_api]; [image] is the uploaded file if there is one, and
    the module-level [API_KEY], [MUSIC_LIBRARY_PATH] and [player] are
    arguments. *)
Definition analyse_image_api (py : Vision.Python)
    (chat_api : string -> string -> Vision.HttpResponse)
    (w : TagMatching.World) (fs : AudioFiles)
    (API_KEY MUSIC_LIBRARY_PATH : string) (now : Q) (image : option string)
    (player : MusicPlayer) : outcome Response :=
  match image with
  | None => Returns BadRequest player
  | Some image_data =>
      match Vision.analyze_image py chat_api image_data API_KEY with
      | TagMatching.Err _ => Returns ReturnedNone player
      | TagMatching.Ok features =>
          let environment := Vision.environment features in
          let mood := Vision.mood features in
          match TagMatching.match_music w environment mood
                  MUSIC_LIBRARY_PATH API_KEY 1 with
          | TagMatching.Err _ => Returns ReturnedNone player
          | TagMatching.Ok [] => Returns NotFound player
          | TagMatching.Ok ((recommended_song, _) :: _) =>
              match play fs now recommended_song player with
              | Returns success p =>
                  Returns
                    (Recommendation success environment mood recommended_song)
                    p
              | Raises _ p => Returns ReturnedNone p
              | Blocks p => Blocks p
              end
          end
      end
  end.

(** [control_music]; [command] is [request.json.get('command')]. *)
Definition control_music (now : Q) (command : option string)
    (player : MusicPlayer) : outcome (bool * Q * option Song) :=
  let run :=
    match command with
    | Some c =>
        if String.eqb c "pause" then pause now player
        else if String.eqb c "resume" then resume now player
        else if String.eqb c "stop" then stop player
        else if String.eqb c "skip" then skip player
        else Returns tt player
    | None => Returns tt player
    end in
  bind run (fun _ p => get_progress p).

End AppRoutes.

(** ** writer.py *)

Module Writer.

Import Json.

(** A file as [json.loads(path.read_text())] finds it.  A path is the key
    under which the file system holds the file; writing is taken to
    succeed, and what [json.dumps] writes to decode to the value written. *)
Inductive FileText : Type :=
| NotJsonText
| JsonText (v : JsonValue).

Definition FileSystem : Type := string -> option FileText.

Definition read_json (fs : FileSystem) (path : string) : Try JsonValue :=
  match fs path with
  | None => Raised (Builtin FileNotFoundError)
  | Some NotJsonText => Raised (Builtin ValueError)
  | Some (JsonText v) => Done v
  end.

Definition write_json (fs : FileSystem) (path : string) (v : JsonValue)
  : FileSystem :=
  fun p => if String.eqb p path then Some (JsonText v) else fs p.

(** [write_lib_path]: the config must be a dict to take the key. *)
Definition write_lib_path (as_posix : string -> string)
    (lib_path config_path : string) (fs : FileSystem) : Try FileSystem :=
  content <~ read_json fs config_path ;;
  content <~ set_item content "lib_path" (JStr (as_posix lib_path)) ;;
  Done (write_json fs config_path content).

(** The dict [write_new_music] builds; [as_posix] is
    [Path(...).as_posix()]. *)
Definition new_music_content (as_posix : string -> string)
    (title type link rhythm mood : string) : Try JsonValue :=
  let entry (l : string) :=
    JDict [("title", JStr title); ("type", JStr type); ("link", JStr l);
           ("features", JDict [("rhythm", JStr rhythm); ("mood", JStr mood)])]
           %string in
  if String.eqb type "local" then Done (entry (as_posix link))
  else if String.eqb type "online" then Done (entry link)
  else Raised (Builtin TypeError).

(** [lib_content.append(item)]: only a list has the method. *)
Definition append (lib_content item : JsonValue) : Try JsonValue :=
  match lib_content with
  | JList items => Done (JList (items ++ [item]))
  | _ => Raised AttributeError
  end.

Definition write_new_music (as_posix : string -> string)
    (title type link rhythm mood lib_path : string) (fs : FileSystem)
  : Try FileSystem :=
  lib_content <~ read_json fs lib_path ;;
  let lib_content :=
    match lib_content with
    | JStr EmptyString => JList []
    | _ => lib_content
    end in
  new_music <~ new_music_content as_posix title type link rhythm mood ;;
  lib_content <~ append lib_content new_music ;;
  Done (write_json fs lib_path lib_content).

(** What a [for] or [filter] goes through: the items of a list, the keys of
    a dict, the characters of a string (here one per byte; each of them
    fails the subscription that follows in the same way). *)
Definition iterate (v : JsonValue) : Try (list JsonValue) :=
  match v with
  | JList items => Done items
  | JDict members => Done (map (fun kv => JStr (fst kv)) members)
  | JStr s =>
      Done (map (fun c => JStr (String c EmptyString)) (list_ascii_of_string s))
  | _ => Raised (Builtin TypeError)
  end.

(** [music_info["title"] == target_title] *)
Definition title_is (target_title : string) (music_info : JsonValue)
  : Try bool :=
  t <~ subscript music_info "title" ;;
  Done (match t with
        | JStr s => String.eqb s target_title
        | _ => false
        end).

(** [list(filter(lambda music_info: ..., lib_content))] *)
Fixpoint filter_titled (target_title : string) (items : list JsonValue)
  : Try (list JsonValue) :=
  match items with
  | [] => Done []
  | music_info :: rest =>
      b <~ title_is target_title music_info ;;
      found <~ filter_titled target_title rest ;;
      Done (if b then music_info :: found else found)
  end.

(** [lib_content.remove(target_music_info)] for the first entry the filter
    kept: the entries in front of it have another title, so none of them
    equals it, and it is the one removed. *)
Fixpoint remove_titled (target_title : string) (items : list JsonValue)
  : list JsonValue :=
  match items with
  | [] => []
  | music_info :: rest =>
      match title_is target_title music_info with
      | Done true => rest
      | _ => music_info :: remove_titled target_title rest
      end
  end.

Definition is_str (v : JsonValue) (s : string) : bool :=
  match v with
  | JStr s' => String.eqb s' s
  | _ => false
  end.

(** The assignments of [edit_library] to the entry taken out of the list. *)
Definition apply_edits (as_posix : string -> string)
    (new_title new_type new_link new_rhythm new_mood : string)
    (target : JsonValue) : Try JsonValue :=
  target <~ (if String.eqb new_title "" then Done target
             else set_item target "title" (JStr new_title)) ;;
  target <~ (if String.eqb new_type "" then Done target
             else set_item target "type" (JStr new_type)) ;;
  target <~ (if String.eqb new_link "" then Done target
             else
               ty <~ subscript target "type" ;;
               if is_str ty "local"
               then set_item target "link" (JStr (as_posix new_link))
               else if is_str ty "online"
               then set_item target "link" (JStr new_link)
               else Raised (Builtin TypeError)) ;;
  target <~ (if String.eqb new_rhythm "" then Done target
             else
               f <~ subscript target "features" ;;
               f <~ set_item f "rhythm" (JStr new_rhythm) ;;
               set_item target "features" f) ;;
  (if String.eqb new_mood "" then Done target
   else
     f <~ subscript target "features" ;;
     f <~ set_item f "mood" (JStr new_mood) ;;
     set_item target "features" f).

Definition edit_library (as_posix : string -> string)
    (lib_path target_title new_title new_type new_link new_rhythm
       new_mood : string) (fs : FileSystem) : Try FileSystem :=
  lib_content <~ read_json fs lib_path ;;
  items <~ iterate lib_content ;;
  target_music_info <~ filter_titled target_title items ;;
  match target_music_info with
  | [] => Raised (Builtin FileNotFoundError)
  | target :: _ =>
      let remaining := remove_titled target_title items in
      target <~ apply_edits as_posix new_title new_type new_link new_rhythm
                  new_mood target ;;
      Done (write_json fs lib_path (JList (remaining ++ [target])))
  end.

Definition delete_song (lib_path target_title : string) (fs : FileSystem)
  : Try FileSystem :=
  lib_content <~ read_json fs lib_path ;;
  items <~ iterate lib_content ;;
  target_music_info <~ filter_titled target_title items ;;
  match target_music_info with
  | [] => Raised (Builtin FileNotFoundError)
  | _ :: _ =>
      Done (write_json fs lib_path (JList (remove_titled target_title items)))
  end.

End Writer.

(** ** More sample data *)

Module MoreExamples.

Import Json.

Definition entry (title type link rhythm mood : string) : JsonValue :=
  JDict [("title", JStr title); ("type", JStr type); ("link", JStr link);
         ("features", JDict [("rhythm", JStr rhythm); ("mood", JStr mood)])]
         %string.

Definition library_file : Writer.FileSystem :=
  fun path =>
    if String.eqb path "song_list.json" then
      Some (Writer.JsonText
              (JList [entry "Study With Miku" "local" "music/study.mp3"
                        "slow" "relaxed";
                      entry "Night Drive" "online" "netease:12345"
                        "fast" "excited"]))
    else None.

Definition quoted (s : string) : string :=
  (String "034" s ++ String "034" EmptyString)%string.

(** The object a chat model is asked for, on one line. *)
Definition answer_object : string :=
  (String "{" (quoted "environment" ++ ": " ++ quoted "cafe " ++ ", "
               ++ quoted "mood" ++ ": " ++ quoted "relaxed")
   ++ String "}" EmptyString)%string.

(** A [json.loads] that decodes that object and nothing else, with a
    [strip] that knows one string with a blank at its end. *)
Definition python : Vision.Python :=
  Vision.mkPython
    (fun text =>
       if String.eqb text answer_object then
         Some (JDict [("environment", JStr "cafe "); ("mood", JStr "relaxed")]
                 %string)
       else None)
    (fun s => if String.eqb s "cafe " then "cafe"%string else s).

(** The body of a chat completion whose message has the given content. *)
Definition completion (content : string) : JsonValue :=
  JDict
    [("choices",
      JList
        [JDict
           [("message",
             JDict [("role", JStr "assistant"); ("content", JStr content)])]])]
    %string.

(** A chat model that wraps the object in a sentence. *)
Definition chatty_model (image_data api_key : string) : Vision.HttpResponse :=
  Vision.Body (completion ("Here you go: " ++ answer_object ++ " Enjoy!")).

(** The same object, one field to a line, after a sentence. *)
Definition indented_answer : string :=
  ("Here you go:" ++ String Vision.newline
   (String "{" (String Vision.newline
      (quoted "environment" ++ ": " ++ quoted "cafe" ++ ","
       ++ String Vision.newline
      (quoted "mood" ++ ": " ++ quoted "relaxed" ++ String Vision.newline
      (String "}" EmptyString))))))%string.

Definition tidy_model (image_data api_key : string) : Vision.HttpResponse :=
  Vision.Body (completion indented_answer).

End MoreExamples.

(** * Properties of the playback engine *)

Module PlaybackProps.

Import Playback Examples.
Local Open Scope Q_scope.

(** ** Reading the state off the flags *)

Lemma state_idle_iff (p : MusicPlayer) :
  state p = Idle <-> is_playing p = false /\ is_paused p = false.
Proof.
  unfold state; destruct (is_paused p), (is_playing p);
    split; intros H; try discriminate; try tauto;
    destruct H; discriminate.
Qed.

Lemma state_playing_iff (p : MusicPlayer) :
  state p = Playing <-> is_playing p = true /\ is_paused p = false.
Proof.
  unfold state; destruct (is_paused p), (is_playing p);
    split; intros H; try discriminate; try tauto;
    destruct H; discriminate.
Qed.

Lemma state_paused_iff (p : MusicPlayer) :
  state p = Paused <-> is_paused p = true.
Proof.
  unfold state; destruct (is_paused p), (is_playing p);
    split; intros H; try discriminate; reflexivity.
Qed.

Lemma active_flags (p : MusicPlayer) :
  state p = Playing \/ state p = Paused ->
  is_playing p || is_paused p = true.
Proof.
  intros [H | H].
  - apply state_playing_iff in H as [-> _]; reflexivity.
  - apply state_paused_iff in H as ->; apply orb_true_r.
Qed.

(** ** [stop] *)

(** What [stop] does to an active session whose lock is free. *)
Lemma stop_active (p : MusicPlayer) :
  is_playing p || is_paused p = true ->
  lock p = false ->
  stop p =
  Returns tt
    (mkPlayer (current_song p) false false 0 (song_length p) (start_time p)
       (progress_thread p) true false
       (mkMixer MusicStopped (music_volume (mixer p)))).
Proof.
  intros Hact Hlock. unfold stop, with_lock. rewrite Hlock. simpl.
  rewrite Hact. reflexivity.
Qed.

(** C1, as the specification words it, fails on a session that is playing a
    local song: after [stop], [get_progress] still reports that song. *)
Lemma stop_then_get_progress_keeps_song :
  state playing_session = Playing /\
  lock playing_session = false /\
  (exists p',
     bind (stop playing_session) (fun _ q => get_progress q)
     = Returns (false, 0, Some song_local) p') /\
  ~ (exists p',
       bind (stop playing_session) (fun _ q => get_progress q)
       = Returns (false, 0, None) p').
Proof.
  repeat split.
  - eexists. reflexivity.
  - intros [p' H]. vm_compute in H. discriminate H.
Qed.

(** C1 (amended): on every session that is Playing or Paused, [stop]
    returns, the session is Idle, the elapsed fraction is 0, the stop event
    of the progress thread is set, and the current song is the one it was;
    the [get_progress] that follows returns [(False, 0.0, current_song)]. *)
Theorem stop_resets_but_keeps_song (p : MusicPlayer) :
  state p = Playing \/ state p = Paused ->
  lock p = false ->
  exists p',
    stop p = Returns tt p' /\
    state p' = Idle /\
    progress p' = 0 /\
    thread_stop_event p' = true /\
    current_song p' = current_song p /\
    get_progress p' = Returns (false, 0, current_song p) p'.
Proof.
  intros Hact Hlock. apply active_flags in Hact.
  eexists. split; [apply (stop_active p Hact Hlock) |].
  repeat split.
Qed.

Lemma stop_resets_but_keeps_song_witness :
  exists p',
    stop paused_session = Returns tt p' /\
    state p' = Idle /\
    progress p' = 0 /\
    thread_stop_event p' = true /\
    current_song p' = current_song paused_session /\
    get_progress p' = Returns (false, 0, current_song paused_session) p'.
Proof.
  apply (stop_resets_but_keeps_song paused_session).
  - right. reflexivity.
  - reflexivity.
Defined.

(** ** [play] *)

(** What [play] does to an idle session when the song is not local. *)
Lemma play_idle_not_local (fs : AudioFiles) (now : Q) (song : Song)
    (p : MusicPlayer) :
  String.eqb (type song) "local" = false ->
  state p = Idle ->
  lock p = false ->
  play fs now song p =
  Returns false
    (mkPlayer (Some song) false false 0 (song_length p) (start_time p)
       (progress_thread p) (thread_stop_event p) false (mixer p)).
Proof.
  intros Hty Hidle Hlock. apply state_idle_iff in Hidle as [Hpl Hpa].
  destruct p; simpl in *; subst.
  unfold play, with_lock. simpl. rewrite Hty.
  destruct (String.eqb (type song) "online"); reflexivity.
Qed.

(** [play] on a session that is Playing or Paused calls [stop] while it
    holds the lock [stop] wants: the call never returns. *)
Lemma play_on_active_session_blocks (fs : AudioFiles) (now : Q) (song : Song)
    (p : MusicPlayer) :
  state p = Playing \/ state p = Paused ->
  lock p = false ->
  play fs now song p = Blocks (with_lock_field true p).
Proof.
  intros Hact Hlock. apply active_flags in Hact.
  unfold play, with_lock at 1. rewrite Hlock. simpl. rewrite Hact.
  reflexivity.
Qed.

(** C2, as the specification words it, fails on the freshly created player:
    [play] of an online song returns [False] and the session stays Idle, but
    the song is the current song from then on. *)
Lemma play_online_sets_current_song :
  type song_online = "online"%string /\
  state init = Idle /\
  exists p',
    play audio 1000 song_online init = Returns false p' /\
    state p' = Idle /\
    current_song p' = Some song_online /\
    current_song p' <> None.
Proof.
  repeat split. eexists. repeat split. discriminate.
Qed.

(** C2 (amended): for every song of type ['online'], [play] on an Idle
    session returns [False] without raising, leaves the session Idle with
    elapsed fraction 0, and records the song as the current song. *)
Theorem play_online_returns_false (fs : AudioFiles) (now : Q) (song : Song)
    (p : MusicPlayer) :
  type song = "online"%string ->
  state p = Idle ->
  lock p = false ->
  exists p',
    play fs now song p = Returns false p' /\
    state p' = Idle /\
    progress p' = 0 /\
    current_song p' = Some song /\
    mixer p' = mixer p.
Proof.
  intros Hty Hidle Hlock.
  eexists. split.
  - apply play_idle_not_local; trivial. rewrite Hty. reflexivity.
  - repeat split.
Qed.

Lemma play_online_returns_false_witness :
  exists p',
    play audio 1000 song_online init = Returns false p' /\
    state p' = Idle /\
    progress p' = 0 /\
    current_song p' = Some song_online /\
    mixer p' = mixer init.
Proof.
  apply (play_online_returns_false audio 1000 song_online init);
    reflexivity.
Defined.

(** ** [set_volume] *)

Lemma set_volume_unlocked (v : Z) (p : MusicPlayer) :
  lock p = false ->
  set_volume v p =
  Returns tt
    (mkPlayer (current_song p) (is_playing p) (is_paused p) (progress p)
       (song_length p) (start_time p) (progress_thread p)
       (thread_stop_event p) false
       (mkMixer (music_status (mixer p)) (inject_Z v / 100))).
Proof.
  intros Hlock. unfold set_volume, with_lock. rewrite Hlock. reflexivity.
Qed.

Lemma percent_in_unit_interval (v : Z) :
  (0 <= v <= 100)%Z -> 0 <= inject_Z v / 100 /\ inject_Z v / 100 <= 1.
Proof.
  intros Hv. unfold Qle, Qdiv, Qmult, Qinv, inject_Z. simpl. lia.
Qed.

(** C3, as the specification words it, fails on the player: [set_volume]
    hands 150/100 and -10/100 to the device, not 100/100 and 0. *)
Lemma set_volume_does_not_clamp :
  music_volume (mixer (final (set_volume 150 init))) == 3 # 2 /\
  ~ music_volume (mixer (final (set_volume 150 init))) == 100 / 100 /\
  music_volume (mixer (final (set_volume (-10) init))) == - (1 # 10) /\
  ~ music_volume (mixer (final (set_volume (-10) init))) == 0.
Proof.
  repeat split; try reflexivity; intros H; vm_compute in H; discriminate H.
Qed.

(** C3 (amended): [MusicPlayer.set_volume v] hands [v/100] to the device as
    it is; the clamp to 0..100 is applied by the [/api/volume] handler before
    it calls the player, so that a request for 150 sets 100 and a request for
    -10 sets 0. *)
Theorem volume_clamped_by_endpoint (p : MusicPlayer) :
  lock p = false ->
  (forall v : Z,
     exists p', set_volume v p = Returns tt p' /\
                music_volume (mixer p') = inject_Z v / 100) /\
  (forall x : Q,
     let v := Z.max 0 (Z.min 100 (App.int_of_float x)) in
     exists p', App.set_volume (Some x) p = Returns v p' /\
                music_volume (mixer p') = inject_Z v / 100 /\
                0 <= music_volume (mixer p') /\
                music_volume (mixer p') <= 1) /\
  (exists p', App.set_volume (Some 150) p = Returns 100%Z p' /\
              music_volume (mixer p') == 1) /\
  (exists p', App.set_volume (Some (-10 # 1)) p = Returns 0%Z p' /\
              music_volume (mixer p') == 0).
Proof.
  intros Hlock. repeat split.
  - intros v. eexists. split; [apply set_volume_unlocked, Hlock | reflexivity].
  - intros x v. unfold App.set_volume. fold v.
    rewrite (set_volume_unlocked v p Hlock). simpl.
    eexists. split; [reflexivity |]. simpl.
    split; [reflexivity |]. apply percent_in_unit_interval. subst v. lia.
  - change (App.set_volume (Some 150) p)
      with (bind (set_volume 100 p) (fun _ q => Returns 100%Z q)).
    rewrite (set_volume_unlocked 100 p Hlock).
    eexists. split; reflexivity.
  - change (App.set_volume (Some (-10 # 1)) p)
      with (bind (set_volume 0 p) (fun _ q => Returns 0%Z q)).
    rewrite (set_volume_unlocked 0 p Hlock).
    eexists. split; reflexivity.
Qed.

Lemma volume_clamped_by_endpoint_witness :
  exists p', App.set_volume (Some 150) init = Returns 100%Z p' /\
             music_volume (mixer p') == 1.
Proof.
  apply (volume_clamped_by_endpoint init). reflexivity.
Defined.

(** ** Python's [min] and [max] on the idealised floats *)

Lemma py_min_le_l (a b : Q) : py_min a b <= a.
Proof.
  unfold py_min. destruct (b ?= a) eqn:E; try apply Qle_refl.
  apply Qlt_le_weak, Qlt_alt, E.
Qed.

Lemma py_min_le_r (a b : Q) : py_min a b <= b.
Proof.
  unfold py_min. destruct (b ?= a) eqn:E.
  - apply Qeq_alt in E. rewrite E. apply Qle_refl.
  - apply Qle_refl.
  - apply Qlt_le_weak, Qgt_alt, E.
Qed.

Lemma py_min_glb (a b c : Q) : c <= a -> c <= b -> c <= py_min a b.
Proof.
  intros Ha Hb. unfold py_min. destruct (b ?= a); assumption.
Qed.

Lemma py_min_mono_r (a b b' : Q) : b <= b' -> py_min a b <= py_min a b'.
Proof.
  intros H. apply py_min_glb.
  - apply py_min_le_l.
  - apply Qle_trans with b; [apply py_min_le_r | exact H].
Qed.

Lemma py_min_compat_r (a b b' : Q) : b == b' -> py_min a b == py_min a b'.
Proof.
  intros H. apply Qle_antisym; apply py_min_mono_r; rewrite H; apply Qle_refl.
Qed.

Lemma py_min_r (a b : Q) : b <= a -> py_min a b == b.
Proof.
  intros H. apply Qle_antisym; [apply py_min_le_r |].
  apply py_min_glb; [exact H | apply Qle_refl].
Qed.

Lemma py_max_le_l (a b : Q) : a <= py_max a b.
Proof.
  unfold py_max. destruct (b ?= a) eqn:E; try apply Qle_refl.
  apply Qlt_le_weak, Qgt_alt, E.
Qed.

Lemma py_max_lub (a b c : Q) : a <= c -> b <= c -> py_max a b <= c.
Proof.
  intros Ha Hb. unfold py_max. destruct (b ?= a); assumption.
Qed.

(** The percentage both [pause] and the progress thread compute. *)
Lemma elapsed_percent_nonneg (now start len : Q) :
  start <= now -> 0 < len -> 0 <= (now - start) / len * 100.
Proof.
  intros Hclock Hlen.
  apply Qmult_le_0_compat; [| discriminate].
  apply Qle_shift_div_l; [exact Hlen |].
  rewrite Qmult_0_l. unfold Qminus. rewrite <- Qle_minus_iff. exact Hclock.
Qed.

Lemma elapsed_percent_mono (t1 t2 start len : Q) :
  0 < len -> t1 <= t2 ->
  (t1 - start) / len * 100 <= (t2 - start) / len * 100.
Proof.
  intros Hlen Ht.
  apply Qmult_le_compat_r; [| discriminate].
  unfold Qdiv. apply Qmult_le_compat_r.
  - unfold Qminus. apply Qplus_le_compat; [exact Ht | apply Qle_refl].
  - apply Qlt_le_weak, Qinv_lt_0_compat, Hlen.
Qed.

Lemma elapsed_percent_in_range (now start len : Q) :
  start <= now -> 0 < len ->
  0 <= py_min 100 ((now - start) / len * 100) /\
  py_min 100 ((now - start) / len * 100) <= 100.
Proof.
  intros Hclock Hlen. split.
  - apply py_min_glb; [discriminate |].
    apply elapsed_percent_nonneg; assumption.
  - apply py_min_le_l.
Qed.

Lemma positive_not_zero (len : Q) : 0 < len -> Qeq_bool len 0 = false.
Proof.
  intros Hlen. destruct (Qeq_bool len 0) eqn:E; [| reflexivity].
  apply Qeq_bool_eq in E. rewrite E in Hlen.
  exfalso. exact (Qlt_irrefl 0 Hlen).
Qed.

(** ** The range of the elapsed fraction *)

Lemma zero_in_range : 0 <= 0 /\ 0 <= 100.
Proof. split; discriminate. Qed.

Lemma play_in_range (fs : AudioFiles) (now : Q) (song : Song)
    (p : MusicPlayer) :
  in_range p -> in_range (final (play fs now song p)).
Proof.
  unfold in_range. intros Hp.
  destruct p as [cs pl pa pr len st th ev lk mx]; simpl in *.
  unfold play, with_lock; simpl.
  destruct lk; simpl; [exact Hp |].
  destruct pl, pa; simpl; try exact Hp;
    destruct (String.eqb (type song) "local");
    try destruct (mixer_can_load fs (link song));
    try destruct (_calculate_song_length fs (link song));
    try destruct (String.eqb (type song) "online");
    simpl; apply zero_in_range.
Qed.

Lemma pause_in_range (now : Q) (p : MusicPlayer) :
  in_range p -> start_time p <= now -> 0 < song_length p ->
  in_range (final (pause now p)).
Proof.
  unfold in_range. intros Hp Hclock Hlen.
  destruct p as [cs pl pa pr len st th ev lk mx]; simpl in *.
  unfold pause, with_lock; simpl.
  destruct lk; simpl; [exact Hp |].
  destruct pl, pa; simpl; try exact Hp.
  rewrite (positive_not_zero _ Hlen). simpl.
  apply elapsed_percent_in_range; assumption.
Qed.

Lemma resume_keeps_progress (now : Q) (p : MusicPlayer) :
  progress (final (resume now p)) = progress p.
Proof.
  destruct p as [cs pl pa pr len st th ev lk mx].
  unfold resume, with_lock; simpl.
  destruct lk; simpl; [reflexivity |].
  destruct pa; simpl; [| reflexivity].
  destruct cs; reflexivity.
Qed.

Lemma stop_in_range (p : MusicPlayer) :
  in_range p -> in_range (final (stop p)).
Proof.
  unfold in_range. intros Hp.
  destruct p as [cs pl pa pr len st th ev lk mx]; simpl in *.
  unfold stop, with_lock; simpl.
  destruct lk; simpl; [exact Hp |].
  destruct pl, pa; simpl; try exact Hp; apply zero_in_range.
Qed.

Lemma set_progress_in_range (percentage : Q) (p : MusicPlayer) :
  in_range p -> in_range (final (set_progress percentage p)).
Proof.
  unfold in_range. intros Hp.
  destruct p as [cs pl pa pr len st th ev lk mx]; simpl in *.
  unfold set_progress, with_lock; simpl.
  destruct lk; simpl; [exact Hp |].
  destruct pl, pa; simpl; try exact Hp.
  split.
  - apply py_max_le_l.
  - apply py_max_lub; [discriminate | apply py_min_le_l].
Qed.

Lemma track_cycle_in_range (now : Q) (p : MusicPlayer) :
  in_range p -> start_time p <= now -> 0 < song_length p ->
  in_range (cycle_state (track_cycle now p)).
Proof.
  unfold in_range. intros Hp Hclock Hlen.
  destruct p as [cs pl pa pr len st th ev lk mx]; simpl in *.
  unfold track_cycle; simpl.
  destruct lk; simpl; [exact Hp |].
  destruct pl, pa, cs; simpl; try exact Hp.
  rewrite (positive_not_zero _ Hlen). simpl.
  apply elapsed_percent_in_range; assumption.
Qed.

(** X2. Without any assumption on clock and track, a session that arises from a
    fresh player has its fraction at most 100, is playing when it is
    paused, and has a current song when it is playing. *)
Lemma reachable_well_formed (p : MusicPlayer) :
  reachable p ->
  progress p <= 100 /\
  (is_paused p = true -> is_playing p = true) /\
  (is_playing p = true -> current_song p <> None).
Proof.
  induction 1 as [| op now p _ [Hle [Hpa Hpl]]].
  - simpl. repeat split; discriminate.
  - destruct p as [cs pl pa pr len st th ev lk mx]; simpl in *.
    destruct op; unfold perform, play, pause, resume, skip, stop, set_volume,
      set_progress, get_progress, cleanup, track_cycle, with_lock; simpl;
      destruct lk; simpl; try (repeat split; assumption).
    + destruct pl, pa; simpl; try (repeat split; assumption);
        destruct (String.eqb (type song_info) "local");
        try destruct (mixer_can_load fs (link song_info));
        try destruct (_calculate_song_length fs (link song_info));
        try destruct (String.eqb (type song_info) "online");
        simpl; repeat split; discriminate.
    + destruct pl, pa; simpl; try (repeat split; assumption).
      destruct (Qeq_bool len 0); simpl; repeat split; trivial.
      apply py_min_le_l.
    + destruct pa; simpl; [| repeat split; assumption].
      assert (Hcs : cs <> None) by (apply Hpl, Hpa; reflexivity).
      destruct cs; simpl; repeat split; trivial; discriminate.
    + destruct pl, pa; simpl; repeat split; trivial; discriminate.
    + destruct pl, pa; simpl; repeat split; trivial; discriminate.
    + destruct pl, pa; simpl; try (repeat split; assumption).
      repeat split; trivial.
      apply py_max_lub; [discriminate | apply py_min_le_l].
    + destruct pl, pa; simpl; repeat split; trivial; discriminate.
    + destruct pl, pa, cs; simpl; try (repeat split; assumption).
      destruct (Qeq_bool len 0); simpl; repeat split; trivial.
      apply py_min_le_l.
Qed.

(** C10: with the clock not behind the recorded start time and a track of
    positive length, every operation on the player, the update by the
    progress thread included, leaves the elapsed fraction between 0 and 100
    when it found it there. *)
Theorem progress_stays_in_range (op : Operation) (now : Q) (p : MusicPlayer) :
  0 <= progress p /\ progress p <= 100 ->
  start_time p <= now ->
  0 < song_length p ->
  0 <= progress (perform op now p) /\ progress (perform op now p) <= 100.
Proof.
  intros Hp Hclock Hlen. destruct op; unfold perform.
  - apply play_in_range, Hp.
  - apply pause_in_range; assumption.
  - rewrite resume_keeps_progress. exact Hp.
  - apply stop_in_range, Hp.
  - apply stop_in_range, Hp.
  - destruct p as [cs pl pa pr len st th ev lk mx]; simpl in *.
    unfold set_volume, with_lock; simpl. destruct lk; exact Hp.
  - apply set_progress_in_range, Hp.
  - destruct p as [cs pl pa pr len st th ev lk mx]; simpl in *.
    unfold get_progress, with_lock; simpl. destruct lk; exact Hp.
  - pose proof (stop_in_range p Hp) as Hs. unfold cleanup.
    destruct (stop p); exact Hs.
  - apply track_cycle_in_range; assumption.
Qed.

Lemma progress_stays_in_range_witness :
  0 <= progress (perform OpPause 1045 playing_session) /\
  progress (perform OpPause 1045 playing_session) <= 100.
Proof.
  apply (progress_stays_in_range OpPause 1045 playing_session).
  - split; discriminate.
  - discriminate.
  - reflexivity.
Defined.

(** ** [resume] *)

(** The percentage computed at time [t] from the start time [resume] set at
    time [now] is the frozen percentage plus what has elapsed since. *)
Lemma resumed_percent (t now frozen len : Q) :
  0 < len ->
  (t - (now - frozen / 100 * len)) / len * 100
  == (t - now) / len * 100 + frozen.
Proof.
  intros Hlen.
  assert (Hne : ~ len == 0)
    by (intros H; rewrite H in Hlen; exact (Qlt_irrefl 0 Hlen)).
  field. repeat split; trivial; discriminate.
Qed.

Lemma resumed_percent_from_frozen (t now frozen len : Q) :
  0 < len -> frozen <= 100 -> now <= t ->
  frozen <= py_min 100 ((t - (now - frozen / 100 * len)) / len * 100).
Proof.
  intros Hlen Hfrozen Ht. apply py_min_glb; [exact Hfrozen |].
  rewrite (resumed_percent t now frozen len Hlen).
  rewrite <- (Qplus_0_l frozen) at 1.
  apply Qplus_le_compat; [| apply Qle_refl].
  apply elapsed_percent_nonneg; assumption.
Qed.

Lemma resumed_percent_at_resume (now frozen len : Q) :
  0 < len -> frozen <= 100 ->
  py_min 100 ((now - (now - frozen / 100 * len)) / len * 100) == frozen.
Proof.
  intros Hlen Hfrozen.
  rewrite (py_min_compat_r 100 _ frozen).
  - apply py_min_r, Hfrozen.
  - rewrite (resumed_percent now now frozen len Hlen).
    assert (Hne : ~ len == 0)
      by (intros H; rewrite H in Hlen; exact (Qlt_irrefl 0 Hlen)).
    field. repeat split; trivial; discriminate.
Qed.

(** C7: on a Paused session with frozen elapsed fraction [progress p] and
    track length [song_length p], [resume] at time [now] sets the start time
    to [now - progress p / 100 * song_length p] and makes the session Playing
    with the fraction untouched; every fraction computed from then on, by the
    progress thread or by the next [pause], is at least the frozen one, does
    not decrease with the clock, and equals the frozen one at [now]. *)
Theorem resume_continues_from_pause (now : Q) (p : MusicPlayer) :
  state p = Paused ->
  lock p = false ->
  current_song p <> None ->
  0 < song_length p ->
  progress p <= 100 ->
  exists p',
    resume now p = Returns tt p' /\
    start_time p' = now - (progress p / 100 * song_length p) /\
    state p' = Playing /\
    progress p' = progress p /\
    (forall t, now <= t ->
       exists v q, track_cycle t p' = Return v q /\ progress q = v /\
                   progress p <= v) /\
    (forall t, now <= t -> progress p <= progress (final (pause t p'))) /\
    (forall t1 t2, t1 <= t2 ->
       progress (cycle_state (track_cycle t1 p'))
       <= progress (cycle_state (track_cycle t2 p'))) /\
    progress (cycle_state (track_cycle now p')) == progress p.
Proof.
  intros Hst Hlock Hsong Hlen Hfrozen.
  apply state_paused_iff in Hst.
  destruct p as [cs pl pa pr len st th ev lk mx]; simpl in *. subst pa lk.
  destruct cs as [song |]; [| contradiction].
  unfold resume, with_lock; simpl.
  eexists. split; [reflexivity |]. simpl.
  repeat split.
  - intros t Ht. unfold track_cycle; simpl.
    rewrite (positive_not_zero _ Hlen).
    do 2 eexists. split; [reflexivity |]. simpl. split; [reflexivity |].
    apply resumed_percent_from_frozen; assumption.
  - intros t Ht. unfold pause, with_lock; simpl.
    rewrite (positive_not_zero _ Hlen). simpl.
    apply resumed_percent_from_frozen; assumption.
  - intros t1 t2 Ht. unfold track_cycle; simpl.
    rewrite (positive_not_zero _ Hlen). simpl.
    apply py_min_mono_r, elapsed_percent_mono; assumption.
  - unfold track_cycle; simpl.
    rewrite (positive_not_zero _ Hlen). simpl.
    apply resumed_percent_at_resume; assumption.
Qed.

Lemma resume_continues_from_pause_witness :
  exists p',
    resume 1050 paused_session = Returns tt p' /\
    start_time p' = 1050 - (progress paused_session / 100 * 180000) /\
    state p' = Playing /\
    progress (cycle_state (track_cycle 1050 p')) == progress paused_session.
Proof.
  destruct (resume_continues_from_pause 1050 paused_session)
    as [p' [Hret [Hstart [Hstate [_ [_ [_ [_ Hsame]]]]]]]].
  - reflexivity.
  - reflexivity.
  - discriminate.
  - reflexivity.
  - discriminate.
  - exists p'. repeat split; assumption.
Defined.

(** ** The progress thread *)

(** A pass of the loop body over a Playing session with a song and a track
    of non-zero length updates the fraction and leaves through [return]. *)
Lemma track_cycle_playing (now : Q) (p : MusicPlayer) :
  state p = Playing ->
  lock p = false ->
  current_song p <> None ->
  Qeq_bool (song_length p) 0 = false ->
  track_cycle now p =
  Return (py_min 100 ((now - start_time p) / song_length p * 100))
    (with_progress (py_min 100 ((now - start_time p) / song_length p * 100)) p).
Proof.
  intros Hst Hlock Hsong Hlen. apply state_playing_iff in Hst as [Hpl Hpa].
  unfold track_cycle. rewrite Hlock, Hpl, Hpa, Hlen. simpl.
  destruct (current_song p); [reflexivity | contradiction].
Qed.

(** So the thread ends with its first update, whatever the clock shows
    later and although nobody set the stop event. *)
Lemma track_progress_ends_at_first_update (now : Q) (later : list Q)
    (p : MusicPlayer) :
  state p = Playing ->
  lock p = false ->
  current_song p <> None ->
  Qeq_bool (song_length p) 0 = false ->
  thread_stop_event p = false ->
  _track_progress (now :: later) p =
  (Returned (py_min 100 ((now - start_time p) / song_length p * 100)),
   thread_exits
     (with_progress (py_min 100 ((now - start_time p) / song_length p * 100))
        p)).
Proof.
  intros Hst Hlock Hsong Hlen Hev. simpl. rewrite Hev.
  rewrite (track_cycle_playing now p Hst Hlock Hsong Hlen). reflexivity.
Qed.

(** C5 fails on the session that [play] leaves behind: started at 1000 with
    the stop event clear, the thread is over at its first reading of the
    clock (1001), with the session still Playing and the stop event still
    clear; the readings that follow are never looked at. *)
Theorem track_progress_returns_after_one_update :
  state playing_session = Playing /\
  thread_stop_event playing_session = false /\
  forall later : list Q,
    exists p',
      _track_progress (1001 :: later) playing_session
      = (Returned (100 # 180000), p') /\
      state p' = Playing /\
      thread_stop_event p' = false /\
      progress_thread p' = Some ThreadExited.
Proof.
  repeat split. intros later. eexists. repeat split.
Qed.

End PlaybackProps.

(** * Properties of the matcher *)

Module MatchingProps.

Import TagMatching Examples.
Local Open Scope R_scope.

(** ** Cosine similarity *)

Lemma np_dot_comm (v1 v2 : list R) : np_dot v1 v2 = np_dot v2 v1.
Proof.
  revert v2. induction v1 as [| x xs IH]; intros [| y ys]; simpl; trivial.
  rewrite IH, (Rmult_comm x y). reflexivity.
Qed.

Lemma np_dot_aligned (v1 v2 : list R) :
  List.length v1 = List.length v2 -> exists d, np_dot v1 v2 = Ok d.
Proof.
  revert v2. induction v1 as [| x xs IH]; intros [| y ys] Hlen;
    simpl in *; try discriminate.
  - exists 0. reflexivity.
  - injection Hlen as Hlen. destruct (IH ys Hlen) as [d Hd].
    rewrite Hd. simpl. eexists. reflexivity.
Qed.

Lemma is_zero_true (x : R) : is_zero x = true <-> x = 0.
Proof.
  unfold is_zero. destruct (Req_dec_T x 0); split; intros H;
    try discriminate; try reflexivity; try assumption; contradiction.
Qed.

Lemma is_zero_false (x : R) : is_zero x = false <-> x <> 0.
Proof.
  unfold is_zero. destruct (Req_dec_T x 0); split; intros H;
    try discriminate; try reflexivity; try assumption; contradiction.
Qed.

Lemma sum_squares_nonneg (v : list R) : 0 <= sum_squares v.
Proof.
  induction v as [| x xs IH]; simpl; [lra |].
  pose proof (Rle_0_sqr x) as Hx. unfold Rsqr in Hx. lra.
Qed.

(** The magnitude is zero exactly for the vectors whose entries are all
    zero. *)
Lemma norm_zero_iff (v : list R) :
  np_linalg_norm v = 0 <-> Forall (fun x => x = 0) v.
Proof.
  unfold np_linalg_norm. split.
  - intros H. apply sqrt_eq_0 in H; [| apply sum_squares_nonneg].
    induction v as [| x xs IH]; constructor; simpl in H;
      pose proof (sum_squares_nonneg xs) as Hxs;
      pose proof (Rle_0_sqr x) as Hx; unfold Rsqr in Hx.
    + assert (Hxx : x * x = 0) by lra.
      apply Rmult_integral in Hxx. tauto.
    + apply IH. lra.
  - intros H. replace (sum_squares v) with 0; [apply sqrt_0 |].
    induction H as [| x xs Hx _ IH]; simpl; [reflexivity |].
    rewrite <- IH, Hx. ring.
Qed.

Lemma norm_zero_vector (n : nat) : np_linalg_norm (repeat 0 n) = 0.
Proof.
  apply norm_zero_iff. induction n; simpl; constructor; trivial.
Qed.

(** Past the guard the divisor is not zero. *)
Lemma division_is_guarded (vec1 vec2 : list R) :
  is_zero (np_linalg_norm vec1) || is_zero (np_linalg_norm vec2) = false ->
  np_linalg_norm vec1 * np_linalg_norm vec2 <> 0.
Proof.
  intros H. apply orb_false_iff in H as [H1 H2].
  apply is_zero_false in H1, H2.
  intros H. apply Rmult_integral in H. tauto.
Qed.

Lemma guard_answers (vec1 vec2 : list R) :
  np_linalg_norm vec1 = 0 \/ np_linalg_norm vec2 = 0 ->
  is_zero (np_linalg_norm vec1) || is_zero (np_linalg_norm vec2) = true.
Proof.
  intros Hzero. apply orb_true_iff.
  destruct Hzero as [H | H]; [left | right]; apply is_zero_true, H.
Qed.

Lemma np_dot_raises_value_error (v1 v2 : list R) (e : exn) :
  np_dot v1 v2 = Err e -> e = ValueError.
Proof.
  revert v2. induction v1 as [| x xs IH]; intros [| y ys] H; simpl in H;
    try discriminate; try (injection H as <-; reflexivity).
  destruct (np_dot xs ys) as [d | e'] eqn:E; [discriminate |].
  simpl in H. injection H as <-. apply (IH ys), E.
Qed.

Lemma np_divide_defined (x y : R) : y <> 0 -> np_divide x y = Some (x / y).
Proof.
  intros Hy. unfold np_divide. apply is_zero_false in Hy. rewrite Hy.
  reflexivity.
Qed.

(** Whatever the vectors, [cosine_similarity] does not divide by zero. *)
Lemma cosine_similarity_never_divides_by_zero (vec1 vec2 : list R) :
  cosine_similarity vec1 vec2 <> Err ZeroDivisionError.
Proof.
  unfold cosine_similarity.
  destruct (np_dot vec1 vec2) as [d | e] eqn:Hd; cbn [bind].
  - destruct (is_zero (np_linalg_norm vec1) || is_zero (np_linalg_norm vec2))
      eqn:Hguard; [discriminate |].
    rewrite (np_divide_defined d _ (division_is_guarded vec1 vec2 Hguard)).
    discriminate.
  - apply np_dot_raises_value_error in Hd as ->. discriminate.
Qed.

(** C8: for two vectors of one dimension of which at least one has zero
    magnitude, [cosine_similarity] returns 0.0 and raises nothing: the guard
    in front of the division answers.  The division is guarded: whenever
    the guard lets a pair of vectors through, the product of the norms is
    not zero and the quotient is a number, so that for no pair of vectors
    at all the function ends in a division by zero. *)
Theorem cosine_similarity_zero_magnitude :
  (forall vec1 vec2 : list R,
     List.length vec1 = List.length vec2 ->
     np_linalg_norm vec1 = 0 \/ np_linalg_norm vec2 = 0 ->
     cosine_similarity vec1 vec2 = Ok 0) /\
  (forall (vec1 vec2 : list R) (dot_product : R),
     is_zero (np_linalg_norm vec1) || is_zero (np_linalg_norm vec2) = false ->
     np_linalg_norm vec1 * np_linalg_norm vec2 <> 0 /\
     np_divide dot_product (np_linalg_norm vec1 * np_linalg_norm vec2)
     = Some (dot_product / (np_linalg_norm vec1 * np_linalg_norm vec2))) /\
  (forall vec1 vec2 : list R,
     cosine_similarity vec1 vec2 <> Err ZeroDivisionError).
Proof.
  split; [| split].
  - intros vec1 vec2 Hlen Hzero. unfold cosine_similarity.
    destruct (np_dot_aligned vec1 vec2 Hlen) as [d ->]. simpl.
    rewrite (guard_answers vec1 vec2 Hzero). reflexivity.
  - intros vec1 vec2 d Hguard.
    pose proof (division_is_guarded vec1 vec2 Hguard) as Hne.
    split; [exact Hne | apply np_divide_defined, Hne].
  - apply cosine_similarity_never_divides_by_zero.
Qed.

Lemma cosine_similarity_zero_magnitude_witness :
  cosine_similarity [3; 4] [0; 0] = Ok 0.
Proof.
  apply (proj1 cosine_similarity_zero_magnitude [3; 4] [0; 0]).
  - reflexivity.
  - right. apply (norm_zero_vector 2).
Defined.

(** C9: [cosine_similarity] gives the same result, or the same exception,
    with its two arguments exchanged. *)
Theorem cosine_similarity_comm (a b : list R) :
  cosine_similarity a b = cosine_similarity b a.
Proof.
  unfold cosine_similarity. rewrite (np_dot_comm a b).
  destruct (np_dot b a) as [d | e]; simpl; [| reflexivity].
  rewrite (orb_comm (is_zero (np_linalg_norm a))).
  rewrite (Rmult_comm (np_linalg_norm a)). reflexivity.
Qed.

(** ** The sort *)

Lemma Rltb_true (x y : R) : Rltb x y = true <-> x < y.
Proof.
  unfold Rltb. destruct (Rlt_dec x y); split; intros H;
    try discriminate; try reflexivity; try assumption; contradiction.
Qed.

Lemma Rltb_false (x y : R) : Rltb x y = false <-> y <= x.
Proof.
  unfold Rltb. destruct (Rlt_dec x y); split; intros H;
    try discriminate; try reflexivity; lra.
Qed.

Lemma insert_desc_perm (m : Song * R) (l : list (Song * R)) :
  Permutation (insert_desc m l) (m :: l).
Proof.
  induction l as [| m' rest IH]; simpl; [apply Permutation_refl |].
  destruct (Rltb (snd m) (snd m')).
  - apply perm_trans with (m' :: m :: rest).
    + apply perm_skip, IH.
    + apply perm_swap.
  - apply Permutation_refl.
Qed.

Lemma sort_desc_perm (l : list (Song * R)) : Permutation (sort_desc l) l.
Proof.
  induction l as [| m rest IH]; simpl; [apply perm_nil |].
  apply perm_trans with (m :: sort_desc rest).
  - apply insert_desc_perm.
  - apply perm_skip, IH.
Qed.

Lemma insert_desc_descending (m : Song * R) (l : list (Song * R)) :
  descending l -> descending (insert_desc m l).
Proof.
  unfold descending. intros Hl.
  induction Hl as [| m' rest Hrest IH Hall]; simpl.
  - repeat constructor.
  - destruct (Rltb (snd m) (snd m')) eqn:E.
    + apply Rltb_true in E. constructor; [exact IH |].
      apply (Permutation_Forall (Permutation_sym (insert_desc_perm m rest))).
      constructor; [lra | exact Hall].
    + apply Rltb_false in E. constructor.
      * constructor; assumption.
      * constructor; [exact E |].
        apply Forall_impl with (2 := Hall). intros a Ha. simpl in Ha. lra.
Qed.

Lemma sort_desc_descending (l : list (Song * R)) : descending (sort_desc l).
Proof.
  induction l as [| m rest IH]; simpl.
  - constructor.
  - apply insert_desc_descending, IH.
Qed.

Lemma insert_desc_filter (s : R) (m : Song * R) (l : list (Song * R)) :
  filter (has_score s) (insert_desc m l) = filter (has_score s) (m :: l).
Proof.
  induction l as [| m' rest IH]; [reflexivity |].
  simpl insert_desc. destruct (Rltb (snd m) (snd m')) eqn:E; [| reflexivity].
  apply Rltb_true in E.
  change (filter (has_score s) (m' :: insert_desc m rest))
    with (if has_score s m' then m' :: filter (has_score s) (insert_desc m rest)
          else filter (has_score s) (insert_desc m rest)).
  rewrite IH. simpl. unfold has_score.
  destruct (Req_dec_T (snd m') s), (Req_dec_T (snd m) s);
    try reflexivity. lra.
Qed.

Lemma sort_desc_filter (s : R) (l : list (Song * R)) :
  filter (has_score s) (sort_desc l) = filter (has_score s) l.
Proof.
  induction l as [| m rest IH]; [reflexivity |].
  simpl sort_desc. rewrite insert_desc_filter. simpl. rewrite IH.
  reflexivity.
Qed.

Lemma sort_desc_stable (l : list (Song * R)) : stable_ranking l (sort_desc l).
Proof.
  split; [apply sort_desc_perm | intros s; apply sort_desc_filter].
Qed.

Lemma sort_desc_length (l : list (Song * R)) :
  List.length (sort_desc l) = List.length l.
Proof. apply Permutation_length, sort_desc_perm. Qed.

(** ** [match_music] *)

Lemma score_all_songs (w : World) (api_key : string) (q : list R)
    (songs : list Song) (scored : list (Song * R)) :
  score_all w api_key q songs = Ok scored -> map fst scored = songs.
Proof.
  revert scored. induction songs as [| song rest IH]; intros scored H;
    simpl in H.
  - injection H as <-. reflexivity.
  - destruct (get_embedding w (song_features song) api_key); [| discriminate].
    simpl in H. destruct (cosine_similarity q a); [| discriminate].
    simpl in H. destruct (score_all w api_key q rest); [| discriminate].
    simpl in H. injection H as <-. simpl. rewrite (IH a1 eq_refl).
    reflexivity.
Qed.

(** On an empty library the loop collects nothing, and the message about
    the best match reads [matches[0]]. *)
Lemma match_music_empty_library (w : World)
    (environment mood lib_path api_key : string) (top_n : Z) (q : list R) :
  load_music_library w lib_path = Ok [] ->
  get_embedding w ("环境:" ++ environment ++ ", 情绪:" ++ mood)%string api_key
  = Ok q ->
  match_music w environment mood lib_path api_key top_n = Err IndexError.
Proof.
  intros Hlib Hq. unfold match_music. rewrite Hlib. cbn [bind].
  rewrite Hq. reflexivity.
Qed.

(** X17. On a library that is not empty, with the embedding service answering:
    the result is the first [min(k, N)] entries of the scored songs ranked
    by descending score, ties in library order. *)
Theorem match_music_nonempty_library (w : World)
    (environment mood lib_path api_key : string) (top_n : Z)
    (songs : list Song) (q : list R) (scored : list (Song * R)) :
  load_music_library w lib_path = Ok songs ->
  songs <> [] ->
  get_embedding w ("环境:" ++ environment ++ ", 情绪:" ++ mood)%string api_key
  = Ok q ->
  score_all w api_key q songs = Ok scored ->
  (1 <= top_n)%Z ->
  exists ranked,
    match_music w environment mood lib_path api_key top_n
    = Ok (firstn (Z.to_nat top_n) ranked) /\
    List.length (firstn (Z.to_nat top_n) ranked)
    = Nat.min (Z.to_nat top_n) (List.length songs) /\
    map fst scored = songs /\
    descending ranked /\
    stable_ranking scored ranked.
Proof.
  intros Hlib Hne Hq Hscored Hk.
  pose proof (score_all_songs w api_key q songs scored Hscored) as Hsongs.
  exists (sort_desc scored). unfold match_music.
  rewrite Hlib. cbn [bind]. rewrite Hq. cbn [bind]. rewrite Hscored.
  cbn [bind]. repeat split.
  - destruct (sort_desc scored) as [| m rest] eqn:E.
    + exfalso. apply Hne. rewrite <- Hsongs.
      pose proof (sort_desc_length scored) as Hl. rewrite E in Hl.
      destruct scored; [reflexivity | discriminate].
    + rewrite Z.max_r by lia. reflexivity.
  - rewrite length_firstn, sort_desc_length, <- Hsongs, length_map.
    reflexivity.
  - exact Hsongs.
  - apply sort_desc_descending.
  - apply sort_desc_perm.
  - intros s. apply sort_desc_filter.
Qed.

(** The theorem at work on a library of two songs whose scores tie. *)
Lemma cosine_similarity_zero_vectors :
  cosine_similarity [0; 0] [0; 0] = Ok 0.
Proof.
  unfold cosine_similarity. simpl np_dot. cbn [bind].
  rewrite (guard_answers [0; 0] [0; 0]); [reflexivity |].
  left. apply (norm_zero_vector 2).
Qed.

Lemma score_all_two_songs :
  score_all two_songs "key" [0; 0] [song_local; song_online]
  = Ok [(song_local, 0); (song_online, 0)].
Proof.
  cbn -[cosine_similarity]. rewrite cosine_similarity_zero_vectors.
  reflexivity.
Qed.

Lemma match_music_nonempty_library_example :
  exists ranked,
    match_music two_songs "cafe" "relaxed" "song_list.json" "key" 1
    = Ok (firstn 1 ranked) /\
    List.length (firstn 1 ranked) = Nat.min 1 2 /\
    map fst [(song_local, 0); (song_online, 0)] = [song_local; song_online] /\
    descending ranked /\
    stable_ranking [(song_local, 0); (song_online, 0)] ranked.
Proof.
  apply (match_music_nonempty_library two_songs "cafe" "relaxed"
           "song_list.json" "key" 1 [song_local; song_online] [0; 0]
           [(song_local, 0); (song_online, 0)]).
  - reflexivity.
  - discriminate.
  - reflexivity.
  - apply score_all_two_songs.
  - lia.
Qed.

(** The tie is broken by library order, and [top_n = 1] keeps the first. *)
Lemma match_music_two_songs :
  match_music two_songs "cafe" "relaxed" "song_list.json" "key" 1
  = Ok [(song_local, 0)].
Proof.
  unfold match_music.
  change (load_music_library two_songs "song_list.json")
    with (Ok [song_local; song_online]).
  cbn [bind].
  change (get_embedding two_songs
            ("环境:" ++ "cafe" ++ ", 情绪:" ++ "relaxed")%string "key")
    with (Ok [0; 0]).
  cbn [bind]. rewrite score_all_two_songs. cbn [bind sort_desc insert_desc snd].
  replace (Rltb 0 0) with false; [reflexivity |].
  symmetry. apply Rltb_false. lra.
Qed.

(** C4 fails on the empty library: with the file holding an empty array and
    the embedding service answering, [match_music] raises [IndexError]
    instead of returning the empty list. *)
Theorem match_music_empty_library_raises :
  load_music_library empty_library "song_list.json" = Ok [] /\
  match_music empty_library "cafe" "relaxed" "song_list.json" "key" 1
  = Err IndexError.
Proof.
  split; reflexivity.
Qed.

(** C6 fails at N = 0: asked for the best three of an empty library,
    [match_music] returns no list at all, so not one of min(3, 0) = 0
    entries. *)
Theorem match_music_no_ranking_of_empty_library :
  ~ exists matches,
      match_music empty_library "cafe" "relaxed" "song_list.json" "key" 3
      = Ok matches /\
      List.length matches = Nat.min 3 0.
Proof.
  intros [matches [H _]].
  rewrite (match_music_empty_library empty_library "cafe" "relaxed"
             "song_list.json" "key" 3 [1; 0]) in H; try reflexivity.
  discriminate H.
Qed.

End MatchingProps.

(** * Further properties of the playback engine *)

Module PlaybackMore.

Import Playback Examples PlaybackProps.
Local Open Scope Q_scope.

(** [field], with the divisors found non-zero among the hypotheses or by
    computation. *)
Ltac solve_field := field; repeat split; trivial; discriminate.

(** ** The lock *)

(** X1. [play] on an active session never returns, and it keeps the lock: from
    then on every call on the player waits for ever as well, and so does the
    progress thread. *)
Theorem play_on_active_session_hangs_player (fs : AudioFiles) (now : Q)
    (song : Song) (p : MusicPlayer) :
  state p = Playing \/ state p = Paused ->
  lock p = false ->
  exists q,
    play fs now song p = Blocks q /\
    state q = state p /\
    (forall fs' t s, play fs' t s q = Blocks q) /\
    (forall t, pause t q = Blocks q) /\
    (forall t, resume t q = Blocks q) /\
    stop q = Blocks q /\
    skip q = Blocks q /\
    cleanup q = Blocks q /\
    (forall v, set_volume v q = Blocks q) /\
    (forall x, set_progress x q = Blocks q) /\
    get_progress q = Blocks q /\
    (forall t, track_cycle t q = Wait q).
Proof.
  intros Hact Hlock. exists (with_lock_field true p).
  split; [apply play_on_active_session_blocks; assumption |].
  destruct p as [cs pl pa pr len st th ev lk mx]; simpl in *.
  repeat split.
Qed.

Lemma play_on_active_session_hangs_player_witness :
  exists q,
    play audio 1100 song_online playing_session = Blocks q /\
    stop q = Blocks q /\
    get_progress q = Blocks q.
Proof.
  destruct (play_on_active_session_hangs_player audio 1100 song_online
              playing_session)
    as [q [Hplay [_ [_ [_ [_ [Hstop [_ [_ [_ [_ [Hget _]]]]]]]]]]]].
  - left. reflexivity.
  - reflexivity.
  - exists q. repeat split; assumption.
Defined.

(** ** Sessions that arise from a fresh player *)

Lemma reachable_well_formed_witness :
  progress paused_session <= 100 /\
  (is_paused paused_session = true -> is_playing paused_session = true) /\
  (is_playing paused_session = true -> current_song paused_session <> None).
Proof.
  apply (reachable_well_formed paused_session).
  apply (reachable_step OpPause 1045).
  apply (reachable_step (OpPlay audio song_local) 1000).
  apply reachable_init.
Defined.

(** ** [pause] and [resume] *)

Lemma pause_playing (now : Q) (p : MusicPlayer) :
  state p = Playing ->
  lock p = false ->
  Qeq_bool (song_length p) 0 = false ->
  pause now p =
  Returns tt
    (mkPlayer (current_song p) true true
       (py_min 100 ((now - start_time p) / song_length p * 100))
       (song_length p) (start_time p) (progress_thread p)
       (thread_stop_event p) false
       (mkMixer MusicPaused (music_volume (mixer p)))).
Proof.
  intros Hst Hlock Hlen. apply state_playing_iff in Hst as [Hpl Hpa].
  destruct p as [cs pl pa pr len st th ev lk mx]; simpl in *. subst.
  unfold pause, with_lock; simpl. rewrite Hlen. reflexivity.
Qed.

(** X3. A second [pause] changes nothing: the fraction stays the one computed
    at the first, and [get_progress] reports it with the song, not playing,
    without changing the session. *)
Theorem pause_freezes_progress (t1 t2 : Q) (p : MusicPlayer) :
  state p = Playing ->
  lock p = false ->
  0 < song_length p ->
  exists q,
    pause t1 p = Returns tt q /\
    state q = Paused /\
    progress q = py_min 100 ((t1 - start_time p) / song_length p * 100) /\
    pause t2 q = Returns tt q /\
    get_progress q = Returns (false, progress q, current_song p) q.
Proof.
  intros Hst Hlock Hlen.
  rewrite (pause_playing t1 p Hst Hlock (positive_not_zero _ Hlen)).
  eexists. split; [reflexivity |]. repeat split.
Qed.

Lemma pause_freezes_progress_witness :
  exists q,
    pause 1045 playing_session = Returns tt q /\
    state q = Paused /\
    pause 1200 q = Returns tt q.
Proof.
  destruct (pause_freezes_progress 1045 1200 playing_session)
    as [q [H1 [H2 [_ [H3 _]]]]].
  - reflexivity.
  - reflexivity.
  - reflexivity.
  - exists q. repeat split; assumption.
Defined.

(** X4. Paused time does not count: pausing at [t1] before the fraction has
    reached 100 and resuming at [t2] moves the start time forward by
    [t2 - t1]. *)
Theorem pause_resume_shifts_start (t1 t2 : Q) (p : MusicPlayer) :
  state p = Playing ->
  lock p = false ->
  current_song p <> None ->
  0 < song_length p ->
  (t1 - start_time p) / song_length p * 100 <= 100 ->
  exists q r,
    pause t1 p = Returns tt q /\
    resume t2 q = Returns tt r /\
    state r = Playing /\
    start_time r == start_time p + (t2 - t1).
Proof.
  intros Hst Hlock Hsong Hlen Hcap.
  rewrite (pause_playing t1 p Hst Hlock (positive_not_zero _ Hlen)).
  destruct p as [cs pl pa pr len st th ev lk mx]; simpl in *.
  destruct cs as [song |]; [| contradiction].
  unfold resume, with_lock; simpl.
  eexists. eexists. split; [reflexivity |].
  split; [reflexivity |]. split; [reflexivity |]. simpl.
  rewrite (py_min_r 100 _ Hcap).
  assert (Hne : ~ len == 0)
    by (intros H; rewrite H in Hlen; exact (Qlt_irrefl 0 Hlen)).
  field. repeat split; trivial; discriminate.
Qed.

Lemma pause_resume_shifts_start_witness :
  exists q r,
    pause 1045 playing_session = Returns tt q /\
    resume 1050 q = Returns tt r /\
    state r = Playing /\
    start_time r == 1000 + (1050 - 1045).
Proof.
  apply (pause_resume_shifts_start 1045 1050 playing_session).
  - reflexivity.
  - reflexivity.
  - discriminate.
  - reflexivity.
  - discriminate.
Defined.

(** ** [set_progress] *)

(** X5. [set_progress] on a Playing session stores the percentage clamped to
    0..100 and leaves the start time alone: the next [pause], and the next
    update by the progress thread, compute the fraction from the clock as if
    the call had not happened. *)
Theorem set_progress_does_not_seek (x t : Q) (p : MusicPlayer) :
  state p = Playing ->
  lock p = false ->
  current_song p <> None ->
  0 < song_length p ->
  exists q,
    set_progress x p = Returns tt q /\
    progress q = py_max 0 (py_min 100 x) /\
    0 <= progress q /\ progress q <= 100 /\
    start_time q = start_time p /\
    pause t q = pause t p /\
    track_cycle t q = track_cycle t p.
Proof.
  intros Hst Hlock Hsong Hlen. apply state_playing_iff in Hst as [Hpl Hpa].
  destruct p as [cs pl pa pr len st th ev lk mx]; simpl in *. subst.
  destruct cs as [song |]; [| contradiction].
  unfold set_progress, with_lock; simpl.
  eexists. split; [reflexivity |]. simpl.
  split; [reflexivity |].
  split; [apply py_max_le_l |].
  split; [apply py_max_lub; [discriminate | apply py_min_le_l] |].
  split; [reflexivity |].
  unfold pause, track_cycle, with_lock; simpl.
  rewrite (positive_not_zero _ Hlen). split; reflexivity.
Qed.

Lemma set_progress_does_not_seek_witness :
  exists q,
    set_progress 90 playing_session = Returns tt q /\
    progress q = py_max 0 (py_min 100 90) /\
    pause 1045 q = pause 1045 playing_session.
Proof.
  destruct (set_progress_does_not_seek 90 1045 playing_session)
    as [q [H1 [H2 [_ [_ [_ [H3 _]]]]]]].
  - reflexivity.
  - reflexivity.
  - discriminate.
  - reflexivity.
  - exists q. repeat split; assumption.
Defined.

(** ** [play] of a local song *)

(** X6. When [pygame] loads and starts the file but [pydub] cannot decode it,
    [play] reports failure and the session is Idle without a song, while
    the device has been left playing; [stop] does nothing on an Idle
    session, so it does not silence the device either. *)
Theorem failed_play_leaves_device_playing (fs : AudioFiles) (now : Q)
    (song : Song) (p : MusicPlayer) :
  state p = Idle ->
  lock p = false ->
  type song = "local"%string ->
  mixer_can_load fs (link song) = true ->
  audio_segment_length fs (link song) = None ->
  exists q,
    play fs now song p = Returns false q /\
    state q = Idle /\
    current_song q = None /\
    music_status (mixer q) = MusicPlaying /\
    stop q = Returns tt q.
Proof.
  intros Hst Hlock Hty Hload Hlen. apply state_idle_iff in Hst as [Hpl Hpa].
  destruct p as [cs pl pa pr len st th ev lk mx]; simpl in *. subst.
  unfold play, with_lock, _calculate_song_length; simpl.
  rewrite Hty, Hload, Hlen. simpl.
  eexists. split; [reflexivity |]. repeat split.
Qed.

Lemma failed_play_leaves_device_playing_witness :
  exists q,
    play (mkAudioFiles (fun _ => true) (fun _ => None)) 1000 song_local init
    = Returns false q /\
    state q = Idle /\
    current_song q = None /\
    music_status (mixer q) = MusicPlaying /\
    stop q = Returns tt q.
Proof.
  apply (failed_play_leaves_device_playing
           (mkAudioFiles (fun _ => true) (fun _ => None)) 1000 song_local
           init); reflexivity.
Defined.

(** What a successful [play] of a local song leaves behind. *)
Lemma play_local_idle (fs : AudioFiles) (now : Q) (song : Song) (n : Z)
    (p : MusicPlayer) :
  state p = Idle ->
  lock p = false ->
  type song = "local"%string ->
  mixer_can_load fs (link song) = true ->
  audio_segment_length fs (link song) = Some n ->
  play fs now song p =
  Returns true
    (mkPlayer (Some song) true false 0 (inject_Z n) now (Some ThreadRunning)
       false false (mkMixer MusicPlaying (music_volume (mixer p)))).
Proof.
  intros Hst Hlock Hty Hload Hlen. apply state_idle_iff in Hst as [Hpl Hpa].
  destruct p as [cs pl pa pr len st th ev lk mx]; simpl in *. subst.
  unfold play, with_lock, _calculate_song_length; simpl.
  rewrite Hty, Hload, Hlen. reflexivity.
Qed.

(** X7. A file that decodes to length 0 plays, but the first [pause] divides by
    that length: it raises [ZeroDivisionError] after it has paused the
    device and set the flag, so the session is left Paused with the
    fraction not updated. *)
Theorem pause_of_empty_track_raises (fs : AudioFiles) (now t : Q)
    (song : Song) (p : MusicPlayer) :
  state p = Idle ->
  lock p = false ->
  type song = "local"%string ->
  mixer_can_load fs (link song) = true ->
  audio_segment_length fs (link song) = Some 0%Z ->
  exists q r,
    play fs now song p = Returns true q /\
    pause t q = Raises ZeroDivisionError r /\
    state r = Paused /\
    music_status (mixer r) = MusicPaused /\
    progress r = 0 /\
    lock r = false.
Proof.
  intros Hst Hlock Hty Hload Hlen.
  rewrite (play_local_idle fs now song 0 p Hst Hlock Hty Hload Hlen).
  eexists. eexists. split; [reflexivity |].
  unfold pause, with_lock; simpl. repeat split.
Qed.

Lemma pause_of_empty_track_raises_witness :
  exists q r,
    play (mkAudioFiles (fun _ => true) (fun _ => Some 0%Z)) 1000 song_local
      init = Returns true q /\
    pause 1001 q = Raises ZeroDivisionError r /\
    state r = Paused /\
    music_status (mixer r) = MusicPaused /\
    progress r = 0 /\
    lock r = false.
Proof.
  apply (pause_of_empty_track_raises
           (mkAudioFiles (fun _ => true) (fun _ => Some 0%Z)) 1000 1001
           song_local init); reflexivity.
Defined.

(** X8. The fraction is the seconds elapsed divided by the number [pydub]
    reports, which counts milliseconds: a track of [n] milliseconds that has
    played for its whole duration, [n / 1000] seconds, is paused at 0.1
    percent, and one paused [n] seconds after its start, or later, at 100. *)
Theorem progress_counts_seconds_against_milliseconds (fs : AudioFiles)
    (now : Q) (song : Song) (n : Z) (p : MusicPlayer) :
  state p = Idle ->
  lock p = false ->
  type song = "local"%string ->
  mixer_can_load fs (link song) = true ->
  audio_segment_length fs (link song) = Some n ->
  (0 < n)%Z ->
  exists q,
    play fs now song p = Returns true q /\
    progress (final (pause (now + inject_Z n / 1000) q)) == 1 # 10 /\
    (forall t, now + inject_Z n <= t -> progress (final (pause t q)) == 100) /\
    (forall t, t < now + inject_Z n -> progress (final (pause t q)) < 100).
Proof.
  intros Hst Hlock Hty Hload Hlen Hn.
  rewrite (play_local_idle fs now song n p Hst Hlock Hty Hload Hlen).
  eexists. split; [reflexivity |].
  assert (Hpos : 0 < inject_Z n).
  { unfold Qlt, inject_Z. simpl. lia. }
  assert (Hne : ~ inject_Z n == 0)
    by (intros H; rewrite H in Hpos; exact (Qlt_irrefl 0 Hpos)).
  unfold pause, with_lock; simpl.
  rewrite (positive_not_zero _ Hpos). simpl.
  repeat split.
  - rewrite py_min_r.
    + solve_field.
    + setoid_replace ((now + inject_Z n / 1000 - now) / inject_Z n * 100)
        with (1 # 10) by solve_field.
      discriminate.
  - intros t Ht. apply Qle_antisym; [apply py_min_le_l |].
    apply py_min_glb; [apply Qle_refl |].
    setoid_replace 100 with ((now + inject_Z n - now) / inject_Z n * 100)
      at 1 by solve_field.
    apply elapsed_percent_mono; assumption.
  - intros t Ht. apply Qle_lt_trans with ((t - now) / inject_Z n * 100);
      [apply py_min_le_r |].
    setoid_replace 100 with ((now + inject_Z n - now) / inject_Z n * 100)
      at 2 by solve_field.
    apply Qmult_lt_compat_r; [reflexivity |].
    unfold Qdiv. apply Qmult_lt_compat_r.
    + apply Qinv_lt_0_compat, Hpos.
    + unfold Qminus. apply Qplus_lt_le_compat; [exact Ht | apply Qle_refl].
Qed.

Lemma progress_counts_seconds_against_milliseconds_witness :
  exists q,
    play audio 1000 song_local init = Returns true q /\
    progress (final (pause (1000 + inject_Z 180000 / 1000) q)) == 1 # 10.
Proof.
  destruct (progress_counts_seconds_against_milliseconds audio 1000
              song_local 180000 init) as [q [H1 [H2 _]]];
    try reflexivity.
  exists q. split; assumption.
Defined.

(** ** The progress thread on a session that is not Playing *)

(** X9. As long as the session is Paused or Idle and nobody sets the stop
    event, the thread goes round its loop without touching a field. *)
Theorem track_progress_idles_unless_playing (clock : list Q)
    (p : MusicPlayer) :
  state p <> Playing ->
  lock p = false ->
  thread_stop_event p = false ->
  _track_progress clock p = (StillLooping, p).
Proof.
  intros Hst Hlock Hev.
  assert (Hskip : negb (is_playing p) || is_paused p = true).
  { unfold state in Hst. destruct (is_paused p), (is_playing p);
      try reflexivity. contradiction. }
  induction clock as [| now later IH]; simpl; rewrite Hev; [reflexivity |].
  unfold track_cycle. rewrite Hlock, Hskip. simpl. exact IH.
Qed.

Lemma track_progress_idles_unless_playing_witness :
  _track_progress [1046; 1047; 1048] paused_session
  = (StillLooping, paused_session).
Proof.
  apply (track_progress_idles_unless_playing [1046; 1047; 1048]
           paused_session).
  - discriminate.
  - reflexivity.
  - reflexivity.
Defined.

(** X10. Once [stop] has returned, a thread that is still in its loop leaves at
    the next test, and the only thing that changes is that it is over. *)
Theorem track_progress_exits_after_stop (clock : list Q) (p : MusicPlayer) :
  state p = Playing \/ state p = Paused ->
  lock p = false ->
  exists q,
    stop p = Returns tt q /\
    _track_progress clock q = (Cancelled, thread_exits q) /\
    progress (thread_exits q) = 0.
Proof.
  intros Hact Hlock. apply active_flags in Hact.
  rewrite (stop_active p Hact Hlock).
  eexists. split; [reflexivity |].
  destruct clock; repeat split.
Qed.

Lemma track_progress_exits_after_stop_witness :
  exists q,
    stop playing_session = Returns tt q /\
    _track_progress [1001; 1002] q = (Cancelled, thread_exits q) /\
    progress (thread_exits q) = 0.
Proof.
  apply (track_progress_exits_after_stop [1001; 1002] playing_session).
  - left. reflexivity.
  - reflexivity.
Defined.

End PlaybackMore.

(** * Further properties of the matcher *)

Module MatchingMore.

Import TagMatching Examples MatchingProps.
Local Open Scope R_scope.

(** ** Cosine similarity *)

(** X12. [cosine_similarity] raises exactly when the two vectors differ in
    length, and then it is the [ValueError] of [np.dot]. *)
Theorem cosine_similarity_raises_iff (vec1 vec2 : list R) :
  (forall e, cosine_similarity vec1 vec2 = Err e -> e = ValueError) /\
  ((exists e, cosine_similarity vec1 vec2 = Err e)
   <-> List.length vec1 <> List.length vec2).
Proof.
  assert (Hdot : forall v1 v2,
             (List.length v1 = List.length v2 -> exists d, np_dot v1 v2 = Ok d)
             /\ (List.length v1 <> List.length v2 ->
                 np_dot v1 v2 = Err ValueError)).
  { induction v1 as [| x xs IH]; intros [| y ys]; simpl; split; intros H;
      try discriminate; try reflexivity; try contradiction.
    - exists 0. reflexivity.
    - injection H as H. destruct (proj1 (IH ys) H) as [d ->].
      eexists. reflexivity.
    - rewrite (proj2 (IH ys)); [reflexivity |]. intros H'. apply H.
      rewrite H'. reflexivity. }
  unfold cosine_similarity.
  destruct (Nat.eq_dec (List.length vec1) (List.length vec2)) as [Heq | Hne].
  - destruct (proj1 (Hdot vec1 vec2) Heq) as [d ->]. cbn [bind].
    assert (Hok : exists s,
               (if is_zero (np_linalg_norm vec1)
                   || is_zero (np_linalg_norm vec2)
                then Ok 0
                else match np_divide d (np_linalg_norm vec1
                                        * np_linalg_norm vec2) with
                     | Some quotient => Ok quotient
                     | None => Err ZeroDivisionError
                     end) = Ok s).
    { destruct (is_zero (np_linalg_norm vec1)
                || is_zero (np_linalg_norm vec2)) eqn:Hguard.
      - eexists. reflexivity.
      - rewrite (np_divide_defined d _ (division_is_guarded _ _ Hguard)).
        eexists. reflexivity. }
    destruct Hok as [s ->].
    split; [intros e H; discriminate H |].
    split; intros H; [destruct H as [e H]; discriminate H | contradiction].
  - rewrite (proj2 (Hdot vec1 vec2) Hne). cbn [bind]. split.
    + intros e H. injection H as <-. reflexivity.
    + split; intros _; [exact Hne | eexists; reflexivity].
Qed.

Lemma np_dot_zero_l (v1 v2 : list R) (d : R) :
  Forall (fun x => x = 0) v1 -> np_dot v1 v2 = Ok d -> d = 0.
Proof.
  intros Hzero. revert v2 d.
  induction Hzero as [| x xs Hx _ IH]; intros [| y ys] d H; simpl in H;
    try discriminate.
  - injection H as <-. reflexivity.
  - destruct (np_dot xs ys) as [a | e] eqn:E; [| discriminate].
    simpl in H. injection H as <-. rewrite (IH ys a E), Hx. ring.
Qed.

Lemma np_dot_zero_magnitude (vec1 vec2 : list R) (d : R) :
  np_linalg_norm vec1 = 0 \/ np_linalg_norm vec2 = 0 ->
  np_dot vec1 vec2 = Ok d -> d = 0.
Proof.
  intros [H | H] Hd; apply norm_zero_iff in H.
  - apply (np_dot_zero_l vec1 vec2 d H Hd).
  - rewrite np_dot_comm in Hd. apply (np_dot_zero_l vec2 vec1 d H Hd).
Qed.

(** X13. The score has the sign of the dot product: it is negative exactly
    when the dot product is, and positive exactly when the dot product is.
    Vectors with a negative dot product get a negative score; the docstring's
    "between 0 and 1" does not hold for them. *)
Theorem cosine_similarity_sign (vec1 vec2 : list R) (dot_product s : R) :
  np_dot vec1 vec2 = Ok dot_product ->
  cosine_similarity vec1 vec2 = Ok s ->
  (s < 0 <-> dot_product < 0) /\ (0 < s <-> 0 < dot_product).
Proof.
  intros Hd H. unfold cosine_similarity in H. rewrite Hd in H.
  cbn [bind] in H.
  destruct (is_zero (np_linalg_norm vec1) || is_zero (np_linalg_norm vec2))
    eqn:Hguard.
  - injection H as <-.
    assert (Hzero : dot_product = 0).
    { apply (np_dot_zero_magnitude vec1 vec2); [| exact Hd].
      apply orb_true_iff in Hguard as [Hz | Hz]; [left | right];
        apply is_zero_true, Hz. }
    rewrite Hzero. split; split; intros Hs; exact Hs.
  - pose proof (division_is_guarded vec1 vec2 Hguard) as Hne.
    rewrite (np_divide_defined dot_product _ Hne) in H. injection H as <-.
    unfold np_linalg_norm in *.
    pose proof (sqrt_pos (sum_squares vec1)) as Hp1.
    pose proof (sqrt_pos (sum_squares vec2)) as Hp2.
    set (n := sqrt (sum_squares vec1) * sqrt (sum_squares vec2)) in *.
    assert (Hn : 0 < n).
    { assert (0 <= n) by (apply Rmult_le_pos; assumption). lra. }
    assert (Hinv : 0 < / n) by (apply Rinv_0_lt_compat, Hn).
    assert (Hback : dot_product = dot_product / n * n) by (field; lra).
    unfold Rdiv in *. split; split; intros Hs; nra.
Qed.

Lemma cosine_similarity_sign_witness :
  cosine_similarity [1] [-1] = Ok (-1) /\
  (-1 < 0 <-> 1 * -1 + 0 < 0) /\ (0 < -1 <-> 0 < 1 * -1 + 0).
Proof.
  assert (H : cosine_similarity [1] [-1] = Ok (-1)).
  { unfold cosine_similarity. simpl np_dot. cbn [bind].
    unfold np_linalg_norm. simpl.
    replace (1 * 1 + 0) with 1 by ring.
    replace (-1 * -1 + 0) with 1 by ring.
    rewrite sqrt_1.
    replace (is_zero 1) with false
      by (symmetry; apply is_zero_false; lra).
    simpl. rewrite np_divide_defined by lra. f_equal. field. }
  split; [exact H |].
  apply (cosine_similarity_sign [1] [-1] (1 * -1 + 0) (-1) eq_refl H).
Defined.

(** ** [load_music_library] *)

Lemma validate_some (r : RawSong) (s : Song) :
  validate r = Some s <->
  r = mkRawSong (Some (title s)) (Some (type s)) (Some (link s))
        (Some (features s)).
Proof.
  destruct r as [[t |] [ty |] [l |] [f |]], s as [t' ty' l' f'];
    unfold validate; simpl; split; intros H;
    try discriminate; injection H as -> -> -> ->; reflexivity.
Qed.

Lemma validate_all_ok (entries : list RawSong) (songs : list Song) :
  validate_all entries = Ok songs <->
  entries =
  map (fun s => mkRawSong (Some (title s)) (Some (type s)) (Some (link s))
                  (Some (features s))) songs.
Proof.
  revert songs. induction entries as [| r rest IH]; intros songs; simpl.
  - split; intros H.
    + injection H as <-. reflexivity.
    + destruct songs; [reflexivity | discriminate].
  - destruct (validate r) as [s |] eqn:E.
    + apply validate_some in E. split; intros H.
      * destruct (validate_all rest) as [ss | e] eqn:Er; [| discriminate].
        simpl in H. injection H as <-. simpl.
        rewrite <- E. f_equal. apply IH. reflexivity.
      * destruct songs as [| s' ss]; [discriminate |]. simpl in H.
        injection H as Hr Hrest. apply IH in Hrest. rewrite Hrest. simpl.
        rewrite E in Hr. injection Hr as Ht Hty Hl Hf.
        destruct s, s'; simpl in *; subst. reflexivity.
    + split; intros H; [discriminate |].
      destruct songs as [| s' ss]; [discriminate |]. simpl in H.
      injection H as Hr _.
      assert (Hv : validate r = Some s') by (apply validate_some, Hr).
      rewrite Hv in E. discriminate.
Qed.

Lemma validate_all_incomplete (entries : list RawSong) :
  Exists (fun r => validate r = None) entries ->
  validate_all entries = Err RuntimeError.
Proof.
  induction entries as [| r rest IH]; intros Hex; [inversion Hex |].
  simpl. destruct (validate r) as [s |] eqn:E; [| reflexivity].
  inversion Hex as [? ? Hr | ? ? Hrest]; subst.
  - rewrite Hr in E. discriminate.
  - rewrite (IH Hrest). reflexivity.
Qed.

(** X14. What [load_music_library] does with a library file that holds an
    array of objects: when every object carries the four required keys it
    returns the objects as songs, in the order of the file, and it returns
    in no other case; when an object is short of a key the caller sees a
    [RuntimeError], the [ValueError] of the validation loop being caught by
    the function's own handler.  A missing file is a [FileNotFoundError],
    text that is not JSON a [ValueError]. *)
Theorem load_music_library_cases (w : World) (library_path : string) :
  (files w library_path = None ->
   load_music_library w library_path = Err FileNotFoundError) /\
  (files w library_path = Some NotJson ->
   load_music_library w library_path = Err ValueError) /\
  (forall entries,
     files w library_path = Some (JsonArray entries) ->
     (forall songs,
        load_music_library w library_path = Ok songs <->
        entries =
        map (fun s => mkRawSong (Some (title s)) (Some (type s))
                        (Some (link s)) (Some (features s))) songs) /\
     (Exists (fun r => validate r = None) entries ->
      load_music_library w library_path = Err RuntimeError)).
Proof.
  unfold load_music_library. split; [| split].
  - intros ->. reflexivity.
  - intros ->. reflexivity.
  - intros entries ->. split.
    + intros songs. apply validate_all_ok.
    + apply validate_all_incomplete.
Qed.

(** ** [match_music]: all or nothing *)

Lemma score_all_fails (w : World) (api_key : string) (q : list R)
    (songs : list Song) (s : Song) :
  In s songs ->
  embedding_api w (song_features s) = None ->
  exists e, score_all w api_key q songs = Err e.
Proof.
  intros Hin Hnone. induction songs as [| s' rest IH]; [contradiction |].
  simpl. unfold get_embedding at 1.
  destruct (String.eqb api_key ""); [eexists; reflexivity |].
  destruct Hin as [-> | Hin].
  - rewrite Hnone. eexists. reflexivity.
  - destruct (embedding_api w (song_features s')) as [v |];
      [| eexists; reflexivity].
    cbn [bind]. destruct (cosine_similarity q v); [| eexists; reflexivity].
    cbn [bind]. destruct (IH Hin) as [e ->]. eexists. reflexivity.
Qed.

(** X15. No ranking is returned over a part of the library: when the embedding
    service fails for one song, wherever it stands in the library,
    [match_music] raises. *)
Theorem match_music_all_or_nothing (w : World)
    (environment mood lib_path api_key : string) (top_n : Z)
    (songs : list Song) (s : Song) :
  load_music_library w lib_path = Ok songs ->
  In s songs ->
  embedding_api w (song_features s) = None ->
  exists e,
    match_music w environment mood lib_path api_key top_n = Err e.
Proof.
  intros Hlib Hin Hnone. unfold match_music. rewrite Hlib. cbn [bind].
  destruct (get_embedding w _ api_key) as [q | e]; [| eexists; reflexivity].
  cbn [bind].
  destruct (score_all_fails w api_key q songs s Hin Hnone) as [e ->].
  eexists. reflexivity.
Qed.

Lemma match_music_all_or_nothing_witness :
  exists e,
    match_music
      (mkWorld (files two_songs)
         (fun text =>
            if String.eqb text (song_features song_online) then None
            else Some [0; 0]))
      "cafe" "relaxed" "song_list.json" "key" 1 = Err e.
Proof.
  apply (match_music_all_or_nothing _ "cafe" "relaxed" "song_list.json" "key"
           1 [song_local; song_online] song_online).
  - reflexivity.
  - right. left. reflexivity.
  - reflexivity.
Defined.

(** ** [match_music]: what a returned ranking is *)

Lemma sort_desc_head_is_best (scored : list (Song * R)) (best : Song * R)
    (rest : list (Song * R)) :
  sort_desc scored = best :: rest ->
  In best scored /\ forall m, In m scored -> snd m <= snd best.
Proof.
  intros H. pose proof (sort_desc_perm scored) as Hperm.
  pose proof (sort_desc_descending scored) as Hdesc.
  rewrite H in Hperm, Hdesc. split.
  - apply (Permutation_in _ Hperm). left. reflexivity.
  - intros m Hm. apply (Permutation_in _ (Permutation_sym Hperm)) in Hm.
    destruct Hm as [<- | Hm]; [lra |].
    unfold descending in Hdesc. apply StronglySorted_inv in Hdesc as [_ Hall].
    rewrite Forall_forall in Hall. apply Hall, Hm.
Qed.

Lemma in_firstn {A : Type} (n : nat) (l : list A) (x : A) :
  In x (firstn n l) -> In x l.
Proof.
  revert l. induction n as [| n IH]; intros [| y l] H; simpl in H;
    try contradiction.
  destruct H as [-> | H]; [left; reflexivity | right; apply IH, H].
Qed.

(** X16. A ranking that [match_music] returns is never empty: its first pair
    holds a song of the library with the highest score of all, it has
    [min(max(1, top_n), N)] pairs, hence one pair whenever [top_n] is 1 or
    less, and every song in it comes from the library. *)
Theorem match_music_returns_best_first (w : World)
    (environment mood lib_path api_key : string) (top_n : Z)
    (ranking : list (Song * R)) :
  match_music w environment mood lib_path api_key top_n = Ok ranking ->
  exists songs q scored best rest,
    load_music_library w lib_path = Ok songs /\
    score_all w api_key q songs = Ok scored /\
    map fst scored = songs /\
    ranking = best :: rest /\
    In best scored /\
    (forall m, In m scored -> snd m <= snd best) /\
    List.length ranking
    = Nat.min (Z.to_nat (Z.max 1 top_n)) (List.length songs) /\
    ((top_n <= 1)%Z -> rest = []) /\
    incl (map fst ranking) songs.
Proof.
  unfold match_music. intros H.
  destruct (load_music_library w lib_path) as [songs | e]; [| discriminate].
  cbn [bind] in H.
  destruct (get_embedding w _ api_key) as [q | e]; [| discriminate].
  cbn [bind] in H.
  destruct (score_all w api_key q songs) as [scored | e] eqn:Hscored;
    [| discriminate].
  cbn [bind] in H.
  destruct (sort_desc scored) as [| best sorted] eqn:Hsort; [discriminate |].
  injection H as <-.
  pose proof (score_all_songs w api_key q songs scored Hscored) as Hsongs.
  assert (Hk : exists k, Z.to_nat (Z.max 1 top_n) = S k).
  { exists (Nat.pred (Z.to_nat (Z.max 1 top_n))). lia. }
  destruct Hk as [k Hk].
  exists songs, q, scored, best, (firstn k sorted).
  destruct (sort_desc_head_is_best scored best sorted Hsort) as [Hin Hmax].
  repeat split; trivial.
  - rewrite Hk. reflexivity.
  - rewrite length_firstn, <- Hsort, sort_desc_length, <- Hsongs, length_map.
    reflexivity.
  - intros Hle. assert (k = 0%nat) as -> by lia. reflexivity.
  - intros x Hx. rewrite <- Hsongs.
    apply in_map_iff in Hx as [m [<- Hm]]. apply in_map.
    rewrite <- Hsort in Hm. apply in_firstn in Hm.
    apply (Permutation_in _ (sort_desc_perm scored)), Hm.
Qed.

Lemma match_music_returns_best_first_witness :
  exists songs q scored best rest,
    load_music_library two_songs "song_list.json" = Ok songs /\
    score_all two_songs "key" q songs = Ok scored /\
    map fst scored = songs /\
    [(song_local, 0)] = best :: rest /\
    In best scored /\
    (forall m, In m scored -> snd m <= snd best) /\
    List.length [(song_local, 0)]
    = Nat.min (Z.to_nat (Z.max 1 0)) (List.length songs) /\
    ((0 <= 1)%Z -> rest = []) /\
    incl (map fst [(song_local, 0)]) songs.
Proof.
  apply (match_music_returns_best_first two_songs "cafe" "relaxed"
           "song_list.json" "key" 0 [(song_local, 0)]).
  unfold match_music.
  change (load_music_library two_songs "song_list.json")
    with (Ok [song_local; song_online]).
  cbn [bind].
  change (get_embedding two_songs
            ("环境:" ++ "cafe" ++ ", 情绪:" ++ "relaxed")%string "key")
    with (Ok [0; 0]).
  cbn [bind]. rewrite score_all_two_songs. cbn [bind sort_desc insert_desc snd].
  replace (Rltb 0 0) with false; [reflexivity |].
  symmetry. apply Rltb_false. lra.
Defined.

Lemma match_music_nonempty_library_witness :
  exists ranked,
    match_music two_songs "cafe" "relaxed" "song_list.json" "key" 1
    = Ok (firstn 1 ranked) /\
    List.length (firstn 1 ranked) = Nat.min 1 2 /\
    descending ranked /\
    stable_ranking [(song_local, 0); (song_online, 0)] ranked.
Proof.
  destruct (match_music_nonempty_library two_songs "cafe" "relaxed"
              "song_list.json" "key" 1 [song_local; song_online] [0; 0]
              [(song_local, 0); (song_online, 0)])
    as [ranked [H1 [H2 [_ [H3 H4]]]]].
  - reflexivity.
  - discriminate.
  - reflexivity.
  - apply score_all_two_songs.
  - lia.
  - exists ranked. repeat split; trivial; apply H4.
Defined.

End MatchingMore.

(** * Properties of the image analysis *)

Module VisionProps.

Import Json Vision MoreExamples.
Local Open Scope string_scope.

(** ** Strings *)

Lemma append_assoc (a b c : string) : (a ++ b) ++ c = a ++ (b ++ c).
Proof.
  induction a as [| x a IH]; simpl; [reflexivity | rewrite IH; reflexivity].
Qed.

Lemma occurs_append (c : ascii) (a b : string) :
  occurs c (a ++ b) = occurs c a || occurs c b.
Proof.
  induction a as [| x a IH]; simpl; [reflexivity |].
  rewrite IH. apply orb_assoc.
Qed.

Lemma first_line_no_newline (s : string) : occurs newline (first_line s) = false.
Proof.
  induction s as [| c s IH]; simpl; [reflexivity |].
  destruct (Ascii.eqb c newline) eqn:E; simpl; [reflexivity |].
  rewrite E. exact IH.
Qed.

Lemma first_line_prefix (s : string) :
  exists tail, s = first_line s ++ tail.
Proof.
  induction s as [| c s [tail IH]]; simpl.
  - exists "". reflexivity.
  - destruct (Ascii.eqb c newline).
    + exists (String c s). reflexivity.
    + exists tail. simpl. rewrite <- IH. reflexivity.
Qed.

Lemma first_line_append (a b : string) :
  occurs newline a = false -> first_line (a ++ b) = a ++ first_line b.
Proof.
  induction a as [| x a IH]; simpl; intros H; [reflexivity |].
  apply orb_false_iff in H as [Hx Ha]. rewrite Hx, (IH Ha). reflexivity.
Qed.

(** ** The regular expression *)

Lemma upto_last_brace_none (line : string) :
  upto_last_brace line = None <-> occurs "}" line = false.
Proof.
  induction line as [| c line IH]; simpl; [tauto |].
  destruct (upto_last_brace line) as [m |].
  - split; intros H; [discriminate |].
    apply orb_false_iff in H as [_ H]. apply IH in H. discriminate.
  - destruct (Ascii.eqb c "}"); simpl.
    + split; intros H; discriminate.
    + split; intros _; [apply IH |]; reflexivity.
Qed.

Lemma upto_last_brace_some (line m : string) :
  upto_last_brace line = Some m ->
  exists mid post,
    m = mid ++ String "}" "" /\
    line = mid ++ String "}" post /\
    occurs "}" post = false.
Proof.
  revert m. induction line as [| c line IH]; simpl; intros m H;
    [discriminate |].
  destruct (upto_last_brace line) as [m' |] eqn:E.
  - injection H as <-. destruct (IH m' eq_refl) as [mid [post [-> [-> Hp]]]].
    exists (String c mid), post. repeat split. exact Hp.
  - destruct (Ascii.eqb c "}") eqn:Ec; [| discriminate].
    injection H as <-. apply Ascii.eqb_eq in Ec as ->.
    exists "", line. repeat split. apply upto_last_brace_none, E.
Qed.

Lemma upto_last_brace_append (a b m : string) :
  upto_last_brace b = Some m -> upto_last_brace (a ++ b) = Some (a ++ m).
Proof.
  intros H. induction a as [| x a IH]; simpl; [exact H |].
  rewrite IH. reflexivity.
Qed.

Lemma upto_last_brace_closing (post : string) :
  occurs "}" post = false ->
  upto_last_brace (String "}" post) = Some (String "}" "").
Proof.
  intros H. simpl. apply upto_last_brace_none in H. rewrite H. reflexivity.
Qed.

Lemma re_search_braces_match (content fragment : string) :
  re_search_braces content = Some fragment ->
  exists pre mid post,
    content = pre ++ String "{" (mid ++ String "}" post) /\
    fragment = String "{" (mid ++ String "}" "") /\
    occurs newline mid = false /\
    occurs "}" (first_line post) = false.
Proof.
  revert fragment. induction content as [| c rest IH]; simpl; intros fragment H;
    [discriminate |].
  assert (Hrec : re_search_braces rest = Some fragment ->
                 exists pre mid post,
                   String c rest = pre ++ String "{" (mid ++ String "}" post) /\
                   fragment = String "{" (mid ++ String "}" "") /\
                   occurs newline mid = false /\
                   occurs "}" (first_line post) = false).
  { intros Hr. destruct (IH fragment Hr) as [pre [mid [post [-> Hrest]]]].
    exists (String c pre), mid, post. split; [reflexivity | exact Hrest]. }
  destruct (Ascii.eqb c "{") eqn:Ec; [| exact (Hrec H)].
  destruct (upto_last_brace (first_line rest)) as [m |] eqn:Em;
    [| exact (Hrec H)].
  injection H as <-. apply Ascii.eqb_eq in Ec as ->.
  destruct (upto_last_brace_some _ _ Em) as [mid [post [-> [Hline Hpost]]]].
  destruct (first_line_prefix rest) as [tail Htail].
  pose proof (first_line_no_newline rest) as Hnl.
  rewrite Hline in Hnl. rewrite occurs_append in Hnl.
  apply orb_false_iff in Hnl as [Hmid Hpostnl].
  change (occurs newline (String "}" post))
    with (occurs newline post) in Hpostnl.
  exists "", mid, (post ++ tail). repeat split.
  - simpl. f_equal. rewrite Htail at 1. rewrite Hline.
    rewrite append_assoc. reflexivity.
  - exact Hmid.
  - rewrite (first_line_append post tail Hpostnl), occurs_append, Hpost.
    simpl.
    assert (Htl : first_line tail = "").
    { (* the line of [rest] ends where [tail] begins *)
      pose proof (f_equal first_line Htail) as Hfl.
      rewrite first_line_append in Hfl by apply first_line_no_newline.
      destruct (first_line tail) as [| x t]; [reflexivity |].
      exfalso. clear - Hfl.
      assert (Hlen : forall a b : string,
                 String.length (a ++ b)
                 = (String.length a + String.length b)%nat).
      { induction a; simpl; intros; [reflexivity | rewrite IHa; reflexivity]. }
      apply (f_equal String.length) in Hfl. rewrite Hlen in Hfl.
      simpl in Hfl. lia. }
    rewrite Htl. reflexivity.
Qed.

Lemma re_search_braces_skip (pre s : string) :
  occurs "{" pre = false ->
  re_search_braces (pre ++ s) = re_search_braces s.
Proof.
  induction pre as [| c pre IH]; simpl; intros H; [reflexivity |].
  apply orb_false_iff in H as [Hc Hpre]. rewrite Hc. apply IH, Hpre.
Qed.

Lemma re_search_braces_here (mid post : string) :
  occurs newline mid = false ->
  occurs "}" (first_line post) = false ->
  re_search_braces (String "{" (mid ++ String "}" post))
  = Some (String "{" (mid ++ String "}" "")).
Proof.
  intros Hmid Hpost. simpl.
  rewrite (first_line_append mid _ Hmid).
  change (first_line (String "}" post)) with (String "}" (first_line post)).
  rewrite (upto_last_brace_append mid _ _
             (upto_last_brace_closing _ Hpost)).
  reflexivity.
Qed.

Lemma re_search_braces_none_iff (content : string) :
  re_search_braces content = None <->
  forall pre mid post,
    content = pre ++ String "{" (mid ++ String "}" post) ->
    occurs newline mid = true.
Proof.
  split.
  - induction content as [| c rest IH]; intros H pre mid post Heq.
    + destruct pre; discriminate.
    + simpl in H. destruct pre as [| x pre]; simpl in Heq.
      * injection Heq as -> ->. simpl in H.
        destruct (upto_last_brace (first_line (mid ++ String "}" post)))
          as [m |] eqn:E; [discriminate |].
        apply upto_last_brace_none in E.
        destruct (occurs newline mid) eqn:Hmid; [reflexivity |].
        rewrite (first_line_append mid _ Hmid) in E.
        rewrite occurs_append in E. apply orb_false_iff in E as [_ E].
        simpl in E. discriminate.
      * injection Heq as -> ->. apply (IH) with (pre := pre) (post := post).
        -- destruct (Ascii.eqb x "{"); [| exact H].
           destruct (upto_last_brace
                       (first_line (pre ++ String "{" (mid ++ String "}" post))));
             [discriminate | exact H].
        -- reflexivity.
  - intros H. destruct (re_search_braces content) as [fragment |] eqn:E;
      [| reflexivity].
    destruct (re_search_braces_match _ _ E)
      as [pre [mid [post [Hc [_ [Hmid _]]]]]].
    rewrite (H pre mid post Hc) in Hmid. discriminate.
Qed.

(** X18. What [re.search(r'\{.*\}', content)] finds.  A match is an opening
    brace, characters of one line, and the last closing brace of that line;
    there is none exactly when no opening brace has a closing brace behind
    it on its own line, so an object that spans several lines is not
    found. *)
Theorem re_search_braces_spec (content : string) :
  (forall fragment,
     re_search_braces content = Some fragment ->
     exists pre mid post,
       content = pre ++ String "{" (mid ++ String "}" post) /\
       fragment = String "{" (mid ++ String "}" "") /\
       occurs newline mid = false /\
       occurs "}" (first_line post) = false) /\
  (re_search_braces content = None <->
   forall pre mid post,
     content = pre ++ String "{" (mid ++ String "}" post) ->
     occurs newline mid = true).
Proof.
  split.
  - intros fragment. apply re_search_braces_match.
  - apply re_search_braces_none_iff.
Qed.

(** ** [analyze_image] *)

Lemma read_fields_dict (py : Python) (members : list (string * JsonValue))
    (e m : string) :
  lookup "environment" members = Some (JStr e) ->
  lookup "mood" members = Some (JStr m) ->
  read_fields py (JDict members) = Done (mkFeatures (strip py e) (strip py m)).
Proof.
  intros He Hm. unfold read_fields, contains, subscript.
  rewrite He, Hm. reflexivity.
Qed.

(** X19. A model that wraps its object in prose is understood, provided the
    object stands on one line: when the answer as a whole is not JSON, has
    no brace in front of the object and no closing brace behind it on that
    line, the text from brace to brace is decoded and its two fields are
    returned stripped. *)
Theorem analyze_image_reads_wrapped_object (py : Python)
    (chat_api : string -> string -> HttpResponse)
    (image_data api_key : string) (response_data : JsonValue)
    (pre mid post : string) (members : list (string * JsonValue))
    (e m : string) :
  chat_api image_data api_key = Body response_data ->
  message_content py response_data
  = Done (pre ++ String "{" (mid ++ String "}" post)) ->
  json_loads py (pre ++ String "{" (mid ++ String "}" post)) = None ->
  occurs "{" pre = false ->
  occurs newline mid = false ->
  occurs "}" (first_line post) = false ->
  json_loads py (String "{" (mid ++ String "}" "")) = Some (JDict members) ->
  lookup "environment" members = Some (JStr e) ->
  lookup "mood" members = Some (JStr m) ->
  analyze_image py chat_api image_data api_key
  = TagMatching.Ok (mkFeatures (strip py e) (strip py m)).
Proof.
  intros Hapi Hcontent Hwhole Hpre Hmid Hpost Hfrag He Hm.
  unfold analyze_image. rewrite Hapi. unfold parse_response.
  rewrite Hcontent. cbn [and_then]. unfold parse_content.
  rewrite Hwhole, (re_search_braces_skip pre _ Hpre),
    (re_search_braces_here mid post Hmid Hpost), Hfrag.
  cbn [and_then]. rewrite (read_fields_dict py members e m He Hm).
  reflexivity.
Qed.

Lemma analyze_image_reads_wrapped_object_witness :
  analyze_image python chatty_model "image" "key"
  = TagMatching.Ok (mkFeatures "cafe" "relaxed").
Proof.
  apply (analyze_image_reads_wrapped_object python chatty_model "image" "key"
           (completion ("Here you go: " ++ answer_object ++ " Enjoy!"))
           "Here you go: "
           (quoted "environment" ++ ": " ++ quoted "cafe " ++ ", "
            ++ quoted "mood" ++ ": " ++ quoted "relaxed")
           " Enjoy!"
           [("environment", JStr "cafe "); ("mood", JStr "relaxed")]
           "cafe " "relaxed"); reflexivity.
Defined.

(** X20. An answer that is not JSON as a whole and in which every pair of braces
    spans a line break, such as an indented object after a sentence, is
    refused: [analyze_image] raises [RuntimeError]. *)
Theorem analyze_image_rejects_object_over_lines (py : Python)
    (chat_api : string -> string -> HttpResponse)
    (image_data api_key : string) (response_data : JsonValue)
    (content : string) :
  chat_api image_data api_key = Body response_data ->
  message_content py response_data = Done content ->
  json_loads py content = None ->
  (forall pre mid post,
     content = pre ++ String "{" (mid ++ String "}" post) ->
     occurs newline mid = true) ->
  analyze_image py chat_api image_data api_key = TagMatching.Err RuntimeError.
Proof.
  intros Hapi Hcontent Hwhole Hspan.
  unfold analyze_image. rewrite Hapi. unfold parse_response.
  rewrite Hcontent. cbn [and_then]. unfold parse_content.
  apply re_search_braces_none_iff in Hspan. rewrite Hwhole, Hspan.
  reflexivity.
Qed.

Lemma analyze_image_rejects_object_over_lines_witness :
  analyze_image python tidy_model "image" "key" = TagMatching.Err RuntimeError.
Proof.
  apply (analyze_image_rejects_object_over_lines python tidy_model "image"
           "key" (completion indented_answer) indented_answer).
  - reflexivity.
  - reflexivity.
  - reflexivity.
  - apply re_search_braces_none_iff. reflexivity.
Defined.

End VisionProps.

(** * Properties of the routes *)

Module AppRoutesProps.

Import Playback TagMatching AppRoutes Examples MoreExamples.
Import PlaybackProps MatchingProps.

Lemma match_music_not_empty (w : World)
    (environment mood lib_path api_key : string) (top_n : Z)
    (ranking : list (Song * R)) :
  match_music w environment mood lib_path api_key top_n = Ok ranking ->
  ranking <> [].
Proof.
  unfold match_music. intros H.
  destruct (load_music_library w lib_path) as [songs | e]; [| discriminate].
  cbn [TagMatching.bind] in H.
  destruct (get_embedding w _ api_key) as [q | e]; [| discriminate].
  cbn [TagMatching.bind] in H.
  destruct (score_all w api_key q songs) as [scored | e]; [| discriminate].
  cbn [TagMatching.bind] in H.
  destruct (sort_desc scored) as [| best sorted]; [discriminate |].
  injection H as <-.
  destruct (Z.to_nat (Z.max 1 top_n)) eqn:E; [lia | discriminate].
Qed.

Lemma match_music_empty_fails (w : World)
    (environment mood lib_path api_key : string) (top_n : Z) :
  load_music_library w lib_path = Ok [] ->
  exists e, match_music w environment mood lib_path api_key top_n = Err e.
Proof.
  intros Hlib. unfold match_music. rewrite Hlib. cbn [TagMatching.bind].
  destruct (get_embedding w _ api_key); eexists; reflexivity.
Qed.

(** X21. The "no matching music" answer of [/api/analyse] is never given:
    [match_music] raises or returns at least one pair, so that with an empty
    library an analysed image ends in the [except] branch, where the view
    returns [None]. *)
Theorem analyse_image_api_never_answers_not_found (py : Vision.Python)
    (chat_api : string -> string -> Vision.HttpResponse) (w : World)
    (fs : AudioFiles) (API_KEY MUSIC_LIBRARY_PATH : string) (now : Q)
    (image : option string) (player : MusicPlayer) :
  (forall p,
     analyse_image_api py chat_api w fs API_KEY MUSIC_LIBRARY_PATH now image
       player <> Returns NotFound p) /\
  (forall image_data features,
     image = Some image_data ->
     Vision.analyze_image py chat_api image_data API_KEY = Ok features ->
     load_music_library w MUSIC_LIBRARY_PATH = Ok [] ->
     analyse_image_api py chat_api w fs API_KEY MUSIC_LIBRARY_PATH now image
       player = Returns ReturnedNone player).
Proof.
  split.
  - intros p. unfold analyse_image_api.
    destruct image as [image_data |]; [| discriminate].
    destruct (Vision.analyze_image py chat_api image_data API_KEY)
      as [features | e]; [| discriminate].
    destruct (match_music w _ _ MUSIC_LIBRARY_PATH API_KEY 1)
      as [ranking | e] eqn:E; [| discriminate].
    apply match_music_not_empty in E.
    destruct ranking as [| [song score] rest]; [contradiction |].
    destruct (play fs now song player); discriminate.
  - intros image_data features -> Hfeatures Hlib. unfold analyse_image_api.
    rewrite Hfeatures.
    destruct (match_music_empty_fails w (Vision.environment features)
                (Vision.mood features) MUSIC_LIBRARY_PATH API_KEY 1 Hlib)
      as [e ->].
    reflexivity.
Qed.

(** X22. A second image analysed while a song is playing or paused hangs the
    request: the recommended song is handed to [play], which waits for the
    lock it holds.  The control and progress routes hang from then on. *)
Theorem analyse_image_api_hangs_on_active_player (py : Vision.Python)
    (chat_api : string -> string -> Vision.HttpResponse) (w : World)
    (fs : AudioFiles) (API_KEY MUSIC_LIBRARY_PATH image_data : string)
    (now : Q) (player : MusicPlayer) (features : Vision.Features)
    (song : Song) (score : R) (rest : list (Song * R)) :
  state player = Playing \/ state player = Paused ->
  lock player = false ->
  Vision.analyze_image py chat_api image_data API_KEY = Ok features ->
  match_music w (Vision.environment features) (Vision.mood features)
    MUSIC_LIBRARY_PATH API_KEY 1 = Ok ((song, score) :: rest) ->
  exists q,
    analyse_image_api py chat_api w fs API_KEY MUSIC_LIBRARY_PATH now
      (Some image_data) player = Blocks q /\
    (forall t command, control_music t command q = Blocks q) /\
    get_progress q = Blocks q.
Proof.
  intros Hact Hlock Hfeatures Hmatch.
  exists (with_lock_field true player). unfold analyse_image_api.
  rewrite Hfeatures, Hmatch,
    (play_on_active_session_blocks fs now song player Hact Hlock).
  split; [reflexivity |].
  destruct player as [cs pl pa pr len st th ev lk mx].
  split; [| reflexivity].
  intros t [c |]; unfold control_music; [| reflexivity].
  destruct (String.eqb c "pause"); [reflexivity |].
  destruct (String.eqb c "resume"); [reflexivity |].
  destruct (String.eqb c "stop"); [reflexivity |].
  destruct (String.eqb c "skip"); reflexivity.
Qed.

Lemma analyse_image_api_hangs_on_active_player_witness :
  exists q,
    analyse_image_api python chatty_model two_songs audio "key"
      "song_list.json" 1100 (Some "image"%string) playing_session
    = Blocks q /\
    (forall t command, control_music t command q = Blocks q) /\
    get_progress q = Blocks q.
Proof.
  apply (analyse_image_api_hangs_on_active_player python chatty_model
           two_songs audio "key" "song_list.json" "image" 1100
           playing_session (Vision.mkFeatures "cafe" "relaxed")
           song_local 0%R []).
  - left. reflexivity.
  - reflexivity.
  - reflexivity.
  - apply match_music_two_songs.
Defined.

End AppRoutesProps.

(** * Properties of the library writer *)

Module WriterProps.

Import Json Writer MoreExamples.
Local Open Scope string_scope.
Local Open Scope list_scope.

Lemma write_json_same (fs : FileSystem) (path : string) (v : JsonValue) :
  write_json fs path v path = Some (JsonText v).
Proof. unfold write_json. rewrite String.eqb_refl. reflexivity. Qed.

Lemma write_json_other (fs : FileSystem) (path p : string) (v : JsonValue) :
  p <> path -> write_json fs path v p = fs p.
Proof.
  intros H. unfold write_json. apply String.eqb_neq in H. rewrite H.
  reflexivity.
Qed.

Lemma read_json_list (fs : FileSystem) (path : string) (v : JsonValue) :
  fs path = Some (JsonText v) -> read_json fs path = Done v.
Proof. intros H. unfold read_json. rewrite H. reflexivity. Qed.

(** ** Dicts *)

Lemma lookup_assign_other (k k' : string) (v : JsonValue)
    (members : list (string * JsonValue)) :
  k <> k' -> lookup k' (assign k v members) = lookup k' members.
Proof.
  intros Hk. induction members as [| [k0 v0] rest IH]; simpl.
  - apply String.eqb_neq in Hk. rewrite Hk. reflexivity.
  - destruct (String.eqb k0 k) eqn:E; simpl.
    + apply String.eqb_eq in E as ->.
      apply String.eqb_neq in Hk. rewrite Hk. reflexivity.
    + rewrite IH. reflexivity.
Qed.

Lemma lookup_assign_same (k : string) (v : JsonValue)
    (members : list (string * JsonValue)) :
  lookup k (assign k v members) = Some v.
Proof.
  induction members as [| [k0 v0] rest IH]; simpl.
  - rewrite String.eqb_refl. reflexivity.
  - destruct (String.eqb k0 k) eqn:E; simpl; rewrite E; [reflexivity | exact IH].
Qed.

(** ** [write_lib_path] *)

(** X23. [write_lib_path] sets the ["lib_path"] key of the configuration and
    keeps every other key with its value, the API key among them; other
    files are not touched. *)
Theorem write_lib_path_keeps_other_keys (as_posix : string -> string)
    (lib_path config_path : string) (fs : FileSystem)
    (members : list (string * JsonValue)) :
  fs config_path = Some (JsonText (JDict members)) ->
  exists fs' members',
    write_lib_path as_posix lib_path config_path fs = Done fs' /\
    fs' config_path = Some (JsonText (JDict members')) /\
    lookup "lib_path" members' = Some (JStr (as_posix lib_path)) /\
    (forall key, key <> "lib_path" -> lookup key members' = lookup key members)
    /\
    (forall p, p <> config_path -> fs' p = fs p).
Proof.
  intros Hfile. unfold write_lib_path.
  rewrite (read_json_list fs config_path _ Hfile). cbn [and_then set_item].
  eexists. eexists. split; [reflexivity |].
  split; [apply write_json_same |].
  split; [apply lookup_assign_same |].
  split.
  - intros key Hkey. apply lookup_assign_other.
    intros H. apply Hkey. symmetry. exact H.
  - intros p Hp. apply write_json_other, Hp.
Qed.

Lemma write_lib_path_keeps_other_keys_witness :
  exists fs' members',
    write_lib_path (fun l => l) "music/song_list.json" "config.json"
      (fun _ => Some (JsonText (JDict [("api_key", JStr "key");
                                       ("lib_path", JStr "old.json")])))
    = Done fs' /\
    fs' "config.json" = Some (JsonText (JDict members')) /\
    lookup "lib_path" members' = Some (JStr "music/song_list.json") /\
    lookup "api_key" members' = Some (JStr "key").
Proof.
  destruct (write_lib_path_keeps_other_keys (fun l => l)
              "music/song_list.json" "config.json"
              (fun _ => Some (JsonText (JDict [("api_key", JStr "key");
                                               ("lib_path", JStr "old.json")])))
              [("api_key", JStr "key"); ("lib_path", JStr "old.json")]
              eq_refl) as [fs' [members' [H1 [H2 [H3 [H4 _]]]]]].
  exists fs', members'. repeat split; trivial.
  rewrite H4; [reflexivity | discriminate].
Defined.

(** ** The filter by title *)

Lemma filter_titled_app (target : string) (a b fa fb : list JsonValue) :
  filter_titled target a = Done fa ->
  filter_titled target b = Done fb ->
  filter_titled target (a ++ b) = Done (fa ++ fb).
Proof.
  revert fa. induction a as [| x a IH]; simpl; intros fa Ha Hb.
  - injection Ha as <-. exact Hb.
  - destruct (title_is target x) as [bx | e]; [| discriminate].
    cbn [and_then] in *.
    destruct (filter_titled target a) as [fa' | e]; [| discriminate].
    cbn [and_then] in *. injection Ha as <-.
    rewrite (IH fa' eq_refl Hb). cbn [and_then].
    destruct bx; reflexivity.
Qed.

(** Where the first entry that the filter keeps stands in the list. *)
Lemma filter_titled_first (target : string) (items : list JsonValue)
    (x : JsonValue) (found : list JsonValue) :
  filter_titled target items = Done (x :: found) ->
  exists pre post,
    items = pre ++ x :: post /\
    filter_titled target pre = Done [] /\
    title_is target x = Done true /\
    filter_titled target post = Done found.
Proof.
  induction items as [| y items IH]; simpl; intros H; [discriminate |].
  destruct (title_is target y) as [by_ | e] eqn:Ey; [| discriminate].
  cbn [and_then] in H.
  destruct (filter_titled target items) as [f | e] eqn:Ef; [| discriminate].
  cbn [and_then] in H. destruct by_.
  - injection H as -> ->. exists [], items. repeat split; assumption.
  - injection H as ->. destruct (IH eq_refl) as [pre [post [-> [Hp [Hx Hq]]]]].
    exists (y :: pre), post. repeat split; trivial.
    simpl. rewrite Ey, Hp. reflexivity.
Qed.

Lemma remove_titled_first (target : string) (pre post : list JsonValue)
    (x : JsonValue) :
  filter_titled target pre = Done [] ->
  title_is target x = Done true ->
  remove_titled target (pre ++ x :: post) = pre ++ post.
Proof.
  intros Hpre Hx. induction pre as [| y pre IH]; simpl.
  - rewrite Hx. reflexivity.
  - simpl in Hpre.
    destruct (title_is target y) as [[|] | e]; try discriminate;
      cbn [and_then] in Hpre;
      destruct (filter_titled target pre) as [f | e']; try discriminate;
      cbn [and_then] in Hpre.
    injection Hpre as ->. rewrite (IH eq_refl). reflexivity.
Qed.

(** ** [write_new_music] *)

Lemma new_music_content_title (as_posix : string -> string)
    (title type link rhythm mood : string) (entry : JsonValue) :
  new_music_content as_posix title type link rhythm mood = Done entry ->
  title_is title entry = Done true.
Proof.
  unfold new_music_content. intros H.
  destruct (String.eqb type "local");
    [| destruct (String.eqb type "online"); [| discriminate]];
    injection H as <-; unfold title_is; simpl;
    rewrite String.eqb_refl; reflexivity.
Qed.

(** X24. [write_new_music] puts the new entry behind the entries of the file
    and changes no other file.  It does not look for the title among them:
    whatever the entries with this title were, there is one more
    afterwards. *)
Theorem write_new_music_accepts_duplicates (as_posix : string -> string)
    (title type link rhythm mood lib_path : string) (fs : FileSystem)
    (items found : list JsonValue) :
  fs lib_path = Some (JsonText (JList items)) ->
  type = "local" \/ type = "online" ->
  filter_titled title items = Done found ->
  exists entry fs',
    new_music_content as_posix title type link rhythm mood = Done entry /\
    write_new_music as_posix title type link rhythm mood lib_path fs
    = Done fs' /\
    fs' lib_path = Some (JsonText (JList (items ++ [entry]))) /\
    (forall p, p <> lib_path -> fs' p = fs p) /\
    filter_titled title (items ++ [entry]) = Done (found ++ [entry]).
Proof.
  intros Hfile Hty Hfound.
  assert (Hentry : exists entry,
             new_music_content as_posix title type link rhythm mood
             = Done entry).
  { unfold new_music_content. destruct Hty as [-> | ->]; simpl;
      eexists; reflexivity. }
  destruct Hentry as [entry Hentry]. exists entry.
  unfold write_new_music. rewrite (read_json_list fs lib_path _ Hfile).
  cbn [and_then]. rewrite Hentry. cbn [and_then append].
  eexists. split; [reflexivity |]. split; [reflexivity |].
  split; [apply write_json_same |].
  split; [intros p Hp; apply write_json_other, Hp |].
  apply filter_titled_app; [exact Hfound |].
  simpl. rewrite (new_music_content_title _ _ _ _ _ _ _ Hentry). reflexivity.
Qed.

Lemma write_new_music_accepts_duplicates_witness :
  exists added fs',
    new_music_content (fun l => l) "Night Drive" "online" "netease:999"
      "slow" "calm" = Done added /\
    write_new_music (fun l => l) "Night Drive" "online" "netease:999" "slow"
      "calm" "song_list.json" library_file = Done fs' /\
    fs' "song_list.json"
    = Some (JsonText
              (JList [entry "Study With Miku" "local" "music/study.mp3"
                        "slow" "relaxed";
                      entry "Night Drive" "online" "netease:12345"
                        "fast" "excited";
                      added])) /\
    filter_titled "Night Drive"
      [entry "Study With Miku" "local" "music/study.mp3" "slow" "relaxed";
       entry "Night Drive" "online" "netease:12345" "fast" "excited"; added]
    = Done [entry "Night Drive" "online" "netease:12345" "fast" "excited";
            added].
Proof.
  destruct (write_new_music_accepts_duplicates (fun l => l) "Night Drive"
              "online" "netease:999" "slow" "calm" "song_list.json"
              library_file
              [entry "Study With Miku" "local" "music/study.mp3" "slow"
                 "relaxed";
               entry "Night Drive" "online" "netease:12345" "fast" "excited"]
              [entry "Night Drive" "online" "netease:12345" "fast" "excited"])
    as [e [fs' [H1 [H2 [H3 [_ H4]]]]]].
  - reflexivity.
  - right. reflexivity.
  - reflexivity.
  - exists e, fs'. repeat split; assumption.
Defined.

(** ** [delete_song] *)

(** X25. On a library whose entries all have a title, [delete_song] raises
    [FileNotFoundError] when no entry has the title, and otherwise takes
    out the first entry that has it: the entries before and behind it stay
    as they are and in their order, later entries of the same title
    included. *)
Theorem delete_song_removes_first_match (lib_path target_title : string)
    (fs : FileSystem) (items found : list JsonValue) :
  fs lib_path = Some (JsonText (JList items)) ->
  filter_titled target_title items = Done found ->
  (found = [] ->
   delete_song lib_path target_title fs = Raised (Builtin FileNotFoundError))
  /\
  (found <> [] ->
   exists pre x post fs',
     items = pre ++ x :: post /\
     filter_titled target_title pre = Done [] /\
     title_is target_title x = Done true /\
     delete_song lib_path target_title fs = Done fs' /\
     fs' lib_path = Some (JsonText (JList (pre ++ post))) /\
     (forall p, p <> lib_path -> fs' p = fs p)).
Proof.
  intros Hfile Hfound. unfold delete_song.
  rewrite (read_json_list fs lib_path _ Hfile). cbn [and_then iterate].
  rewrite Hfound. cbn [and_then]. split.
  - intros ->. reflexivity.
  - intros Hne. destruct found as [| x found']; [contradiction |].
    destruct (filter_titled_first _ _ _ _ Hfound)
      as [pre [post [-> [Hpre [Hx Hpost]]]]].
    exists pre, x, post. eexists.
    split; [reflexivity |]. split; [exact Hpre |]. split; [exact Hx |].
    split; [reflexivity |].
    rewrite (remove_titled_first target_title pre post x Hpre Hx).
    split; [apply write_json_same |].
    intros p Hp. apply write_json_other, Hp.
Qed.

Lemma delete_song_removes_first_match_witness :
  exists fs',
    delete_song "song_list.json" "Night Drive" library_file = Done fs' /\
    fs' "song_list.json"
    = Some (JsonText
              (JList [entry "Study With Miku" "local" "music/study.mp3"
                        "slow" "relaxed"])).
Proof.
  destruct (delete_song_removes_first_match "song_list.json" "Night Drive"
              library_file
              [entry "Study With Miku" "local" "music/study.mp3" "slow"
                 "relaxed";
               entry "Night Drive" "online" "netease:12345" "fast" "excited"]
              [entry "Night Drive" "online" "netease:12345" "fast" "excited"]
              eq_refl eq_refl) as [_ H].
  destruct H as [pre [x [post [fs' [Hsplit [_ [Hx [Hdel [Hfile _]]]]]]]]];
    [discriminate |].
  exists fs'. split; [exact Hdel |]. rewrite Hfile.
  destruct pre as [| a [| b pre]]; simpl in Hsplit.
  - injection Hsplit as <- _. discriminate Hx.
  - injection Hsplit as <- _ <-. reflexivity.
  - injection Hsplit as _ _ Hrest. destruct pre; discriminate Hrest.
Defined.

(** X26. Adding a song under a title no entry has and deleting that title
    again gives the library back as it was. *)
Theorem write_then_delete_restores (as_posix : string -> string)
    (title type link rhythm mood lib_path : string) (fs : FileSystem)
    (items : list JsonValue) :
  fs lib_path = Some (JsonText (JList items)) ->
  type = "local" \/ type = "online" ->
  filter_titled title items = Done [] ->
  exists fs1 fs2,
    write_new_music as_posix title type link rhythm mood lib_path fs
    = Done fs1 /\
    delete_song lib_path title fs1 = Done fs2 /\
    fs2 lib_path = Some (JsonText (JList items)) /\
    (forall p, p <> lib_path -> fs2 p = fs p).
Proof.
  intros Hfile Hty Hfresh.
  assert (Hentry : exists entry,
             new_music_content as_posix title type link rhythm mood
             = Done entry).
  { unfold new_music_content. destruct Hty as [-> | ->]; simpl;
      eexists; reflexivity. }
  destruct Hentry as [entry Hentry].
  pose proof (new_music_content_title _ _ _ _ _ _ _ Hentry) as Htitle.
  unfold write_new_music. rewrite (read_json_list fs lib_path _ Hfile).
  cbn [and_then]. rewrite Hentry. cbn [and_then append].
  eexists. eexists. split; [reflexivity |].
  unfold delete_song, read_json. rewrite write_json_same.
  cbn [and_then iterate].
  assert (Hf : filter_titled title (items ++ [entry]) = Done ([] ++ [entry])).
  { apply filter_titled_app; [exact Hfresh |]. simpl. rewrite Htitle.
    reflexivity. }
  rewrite Hf. cbn [and_then app].
  rewrite (remove_titled_first title items [] entry Hfresh Htitle).
  rewrite app_nil_r.
  split; [reflexivity |]. split; [apply write_json_same |].
  intros p Hp. rewrite write_json_other by exact Hp.
  apply write_json_other, Hp.
Qed.

Lemma write_then_delete_restores_witness :
  exists fs1 fs2,
    write_new_music (fun l => l) "Rain" "local" "music/rain.mp3" "slow" "calm"
      "song_list.json" library_file = Done fs1 /\
    delete_song "song_list.json" "Rain" fs1 = Done fs2 /\
    fs2 "song_list.json" = library_file "song_list.json".
Proof.
  destruct (write_then_delete_restores (fun l => l) "Rain" "local"
              "music/rain.mp3" "slow" "calm" "song_list.json" library_file
              [entry "Study With Miku" "local" "music/study.mp3" "slow"
                 "relaxed";
               entry "Night Drive" "online" "netease:12345" "fast" "excited"])
    as [fs1 [fs2 [H1 [H2 [H3 _]]]]].
  - reflexivity.
  - left. reflexivity.
  - reflexivity.
  - exists fs1, fs2. repeat split; assumption.
Defined.

(** ** [edit_library] *)

(** [v] is a dict whose title is the string [t]. *)
Lemma title_is_true (t : string) (v : JsonValue) :
  title_is t v = Done true <->
  exists members, v = JDict members /\ lookup "title" members = Some (JStr t).
Proof.
  unfold title_is, subscript. split.
  - intros H. destruct v as [| | | | | members]; try discriminate.
    exists members. split; [reflexivity |].
    destruct (lookup "title" members) as [[| | | s | |] |];
      try discriminate H.
    cbn [and_then] in H. injection H as H.
    apply String.eqb_eq in H as ->. reflexivity.
  - intros [members [-> H]]. rewrite H. cbn [and_then].
    rewrite String.eqb_refl. reflexivity.
Qed.

Lemma set_item_keeps_title (t k : string) (v y v' : JsonValue) :
  title_is t v = Done true ->
  k <> "title" ->
  set_item v k y = Done v' ->
  title_is t v' = Done true.
Proof.
  intros Ht Hk Hset. apply title_is_true in Ht as [members [-> Hl]].
  simpl in Hset. injection Hset as <-. apply title_is_true.
  eexists. split; [reflexivity |].
  rewrite lookup_assign_other by exact Hk. exact Hl.
Qed.

Lemma set_features_keeps_title (t k : string) (v y v' : JsonValue) :
  title_is t v = Done true ->
  (f <~ subscript v "features" ;;
   f <~ set_item f k y ;;
   set_item v "features" f) = Done v' ->
  title_is t v' = Done true.
Proof.
  intros Ht H.
  destruct (subscript v "features") as [f | e]; [| discriminate].
  cbn [and_then] in H.
  destruct (set_item f k y) as [f' | e]; [| discriminate].
  cbn [and_then] in H.
  eapply set_item_keeps_title; [exact Ht | | exact H]. discriminate.
Qed.

(** After the edits the entry has the new title if one was given and its
    old title otherwise. *)
Lemma apply_edits_title (as_posix : string -> string)
    (new_title new_type new_link new_rhythm new_mood target_title : string)
    (x x' : JsonValue) :
  title_is target_title x = Done true ->
  apply_edits as_posix new_title new_type new_link new_rhythm new_mood x
  = Done x' ->
  title_is (if String.eqb new_title "" then target_title else new_title) x'
  = Done true.
Proof.
  intros Ht H. unfold apply_edits in H.
  set (t := if String.eqb new_title "" then target_title else new_title).
  (* the title *)
  assert (H1 : exists x1,
             (if String.eqb new_title "" then Done x
              else set_item x "title" (JStr new_title)) = Done x1 /\
             title_is t x1 = Done true).
  { subst t. destruct (String.eqb new_title "").
    - exists x. split; [reflexivity | exact Ht].
    - apply title_is_true in Ht as [members [-> Hl]]. simpl.
      eexists. split; [reflexivity |]. apply title_is_true.
      eexists. split; [reflexivity |]. apply lookup_assign_same. }
  destruct H1 as [x1 [E1 Ht1]]. rewrite E1 in H. cbn [and_then] in H.
  (* the type *)
  destruct (if String.eqb new_type "" then Done x1
            else set_item x1 "type" (JStr new_type)) as [x2 | e] eqn:E2;
    [| discriminate].
  cbn [and_then] in H.
  assert (Ht2 : title_is t x2 = Done true).
  { destruct (String.eqb new_type "").
    - injection E2 as <-. exact Ht1.
    - eapply set_item_keeps_title; [exact Ht1 | | exact E2]. discriminate. }
  (* the link *)
  destruct (if String.eqb new_link "" then Done x2
            else
              ty <~ subscript x2 "type" ;;
              if is_str ty "local"
              then set_item x2 "link" (JStr (as_posix new_link))
              else if is_str ty "online"
              then set_item x2 "link" (JStr new_link)
              else Raised (Builtin TypeError)) as [x3 | e] eqn:E3;
    [| discriminate].
  cbn [and_then] in H.
  assert (Ht3 : title_is t x3 = Done true).
  { destruct (String.eqb new_link "").
    - injection E3 as <-. exact Ht2.
    - destruct (subscript x2 "type") as [ty | e]; [| discriminate].
      cbn [and_then] in E3.
      destruct (is_str ty "local");
        [| destruct (is_str ty "online"); [| discriminate]];
        (eapply set_item_keeps_title; [exact Ht2 | | exact E3]; discriminate). }
  (* rhythm and mood *)
  destruct (if String.eqb new_rhythm "" then Done x3
            else
              f <~ subscript x3 "features" ;;
              f <~ set_item f "rhythm" (JStr new_rhythm) ;;
              set_item x3 "features" f) as [x4 | e] eqn:E4;
    [| discriminate].
  cbn [and_then] in H.
  assert (Ht4 : title_is t x4 = Done true).
  { destruct (String.eqb new_rhythm "").
    - injection E4 as <-. exact Ht3.
    - eapply set_features_keeps_title; [exact Ht3 | exact E4]. }
  destruct (String.eqb new_mood "").
  - injection H as <-. exact Ht4.
  - eapply set_features_keeps_title; [exact Ht4 | exact H].
Qed.

(** X27. [edit_library] takes the first entry with the title out of the list
    and puts it back at the end: the edited entry is the last of the
    library afterwards, also when no new value was given and the entry is
    unchanged, and the other entries keep their order.  When the edits
    raise, nothing is written. *)
Theorem edit_library_moves_entry_last (as_posix : string -> string)
    (lib_path target_title new_title new_type new_link new_rhythm
       new_mood : string) (fs : FileSystem) (pre post found : list JsonValue)
    (x : JsonValue) :
  fs lib_path = Some (JsonText (JList (pre ++ x :: post))) ->
  filter_titled target_title pre = Done [] ->
  title_is target_title x = Done true ->
  filter_titled target_title post = Done found ->
  (forall x',
     apply_edits as_posix new_title new_type new_link new_rhythm new_mood x
     = Done x' ->
     exists fs',
       edit_library as_posix lib_path target_title new_title new_type
         new_link new_rhythm new_mood fs = Done fs' /\
       fs' lib_path = Some (JsonText (JList (pre ++ post ++ [x']))) /\
       title_is (if String.eqb new_title "" then target_title else new_title)
         x' = Done true) /\
  (forall e,
     apply_edits as_posix new_title new_type new_link new_rhythm new_mood x
     = Raised e ->
     edit_library as_posix lib_path target_title new_title new_type new_link
       new_rhythm new_mood fs = Raised e) /\
  apply_edits as_posix "" "" "" "" "" x = Done x.
Proof.
  intros Hfile Hpre Hx Hpost.
  assert (Hf : filter_titled target_title (pre ++ x :: post)
               = Done ([] ++ x :: found)).
  { apply filter_titled_app; [exact Hpre |]. simpl. rewrite Hx, Hpost.
    reflexivity. }
  assert (Hstart :
             edit_library as_posix lib_path target_title new_title new_type
               new_link new_rhythm new_mood fs
             = (target <~ apply_edits as_posix new_title new_type new_link
                            new_rhythm new_mood x ;;
                Done (write_json fs lib_path
                        (JList ((pre ++ post) ++ [target]))))).
  { unfold edit_library.
    rewrite (read_json_list fs lib_path _ Hfile). cbn [and_then iterate].
    rewrite Hf. cbn [and_then app].
    rewrite (remove_titled_first target_title pre post x Hpre Hx).
    reflexivity. }
  repeat split.
  - intros x' Hedit. rewrite Hstart, Hedit. cbn [and_then].
    eexists. split; [reflexivity |]. split.
    + rewrite write_json_same, <- app_assoc. reflexivity.
    + apply (apply_edits_title as_posix new_title new_type new_link
               new_rhythm new_mood target_title x x' Hx Hedit).
  - intros e Hedit. rewrite Hstart, Hedit. reflexivity.
Qed.

Lemma edit_library_moves_entry_last_witness :
  exists fs',
    edit_library (fun l => l) "song_list.json" "Study With Miku" "" "" "" ""
      "" library_file = Done fs' /\
    fs' "song_list.json"
    = Some (JsonText
              (JList [entry "Night Drive" "online" "netease:12345" "fast"
                        "excited";
                      entry "Study With Miku" "local" "music/study.mp3"
                        "slow" "relaxed"])).
Proof.
  destruct (edit_library_moves_entry_last (fun l => l) "song_list.json"
              "Study With Miku" "" "" "" "" "" library_file []
              [entry "Night Drive" "online" "netease:12345" "fast" "excited"]
              []
              (entry "Study With Miku" "local" "music/study.mp3" "slow"
                 "relaxed")
              eq_refl eq_refl eq_refl eq_refl) as [H [_ Hsame]].
  destruct (H _ Hsame) as [fs' [Hedit [Hfile _]]].
  exists fs'. split; [exact Hedit | exact Hfile].
Defined.

(** ** Entries without a title *)

Lemma filter_titled_key_error (target : string) (pre post : list JsonValue)
    (members : list (string * JsonValue)) :
  Forall (fun v => exists m t, v = JDict m /\ lookup "title" m = Some t) pre ->
  lookup "title" members = None ->
  filter_titled target (pre ++ JDict members :: post) = Raised KeyError.
Proof.
  intros Hpre Hnone. induction Hpre as [| y pre [m [t [-> Hy]]] _ IH]; simpl.
  - unfold title_is, subscript. rewrite Hnone. reflexivity.
  - unfold title_is at 1. unfold subscript. rewrite Hy. cbn [and_then].
    rewrite IH. reflexivity.
Qed.

(** X28. One entry that has no ["title"] key makes every [delete_song] and every
    [edit_library] on the library raise [KeyError], whatever title is asked
    for and even when an entry in front of it has that title: the filter
    reads the title of every entry. *)
Theorem entry_without_title_breaks_edit_and_delete (lib_path : string)
    (fs : FileSystem) (pre post : list JsonValue)
    (members : list (string * JsonValue)) :
  fs lib_path = Some (JsonText (JList (pre ++ JDict members :: post))) ->
  Forall (fun v => exists m t, v = JDict m /\ lookup "title" m = Some t) pre ->
  lookup "title" members = None ->
  forall target_title,
    delete_song lib_path target_title fs = Raised KeyError /\
    forall as_posix new_title new_type new_link new_rhythm new_mood,
      edit_library as_posix lib_path target_title new_title new_type new_link
        new_rhythm new_mood fs = Raised KeyError.
Proof.
  intros Hfile Hpre Hnone target_title.
  pose proof (filter_titled_key_error target_title pre post members Hpre Hnone)
    as Hf.
  split.
  - unfold delete_song. rewrite (read_json_list fs lib_path _ Hfile).
    cbn [and_then iterate]. rewrite Hf. reflexivity.
  - intros. unfold edit_library. rewrite (read_json_list fs lib_path _ Hfile).
    cbn [and_then iterate]. rewrite Hf. reflexivity.
Qed.

Lemma entry_without_title_breaks_edit_and_delete_witness :
  delete_song "song_list.json" "Study With Miku"
    (write_json library_file "song_list.json"
       (JList [entry "Study With Miku" "local" "music/study.mp3" "slow"
                 "relaxed";
               JDict [("link", JStr "music/untitled.mp3")]]))
  = Raised KeyError.
Proof.
  apply (entry_without_title_breaks_edit_and_delete "song_list.json"
           (write_json library_file "song_list.json"
              (JList [entry "Study With Miku" "local" "music/study.mp3"
                        "slow" "relaxed";
                      JDict [("link", JStr "music/untitled.mp3")]]))
           [entry "Study With Miku" "local" "music/study.mp3" "slow"
              "relaxed"]
           [] [("link", JStr "music/untitled.mp3")]).
  - reflexivity.
  - constructor; [| constructor]. eexists. eexists. split; reflexivity.
  - reflexivity.
Defined.

End WriterProps.
